(** * Voice reader of the AI Book Summarizer: a shallow embedding

    The development follows the [VoiceReader] class of the front end
    (text-to-speech for summaries): the text cleaner, the voice selection,
    the playback methods with the utterance callbacks, and the loading of
    saved settings from [localStorage].

    JavaScript strings are sequences of UTF-16 code units; the regular
    expressions of [cleanText] carry no [u] flag, so they work on code
    units, and so does this model. *)

From Stdlib Require Import ZArith NArith QArith Ascii String List Bool Lia.
From stdpp Require Import base option list strings gmap pretty.
Import ListNotations.

Close Scope Q_scope.
Local Open Scope N_scope.

(** ** JavaScript strings *)

Module JsString.

(** A string is the list of its UTF-16 code units. *)
Abbreviation jsstring := (list N).

(** An ASCII literal as a JavaScript string. *)
Definition js (s : string) : jsstring :=
  List.map N_of_ascii (list_ascii_of_string s).

Definition LT : N := 60.        (* < *)
Definition GT : N := 62.        (* > *)
Definition SPACE : N := 32.
Definition DQUOTE : N := 34.

(** The class [\s] of a regular expression, which is also what
    [String.prototype.trim] strips: WhiteSpace and LineTerminator. *)
Definition is_space (c : N) : bool :=
  ((9 <=? c) && (c <=? 13)) || (c =? 32) || (c =? 160) || (c =? 5760)
  || ((8192 <=? c) && (c <=? 8202)) || (c =? 8232) || (c =? 8233)
  || (c =? 8239) || (c =? 8287) || (c =? 12288) || (c =? 65279).

(** The class [\w]: [A-Za-z0-9_]. *)
Definition is_word (c : N) : bool :=
  ((65 <=? c) && (c <=? 90)) || ((97 <=? c) && (c <=? 122))
  || ((48 <=? c) && (c <=? 57)) || (c =? 95).

(** The range [ऀ-ॿ]. *)
Definition is_devanagari (c : N) : bool := (2304 <=? c) && (c <=? 2431).

(** The punctuation listed in the character class of the last
    replacement: full stop, comma, exclamation and question mark,
    semicolon, colon, the two parentheses, hyphen, and the double and the
    single quote, each written twice. *)
Definition punctuation : list N := [46; 44; 33; 63; 59; 58; 40; 41; 45; 34; 34; 39; 39].

Definition is_punct (c : N) : bool := existsb (N.eqb c) punctuation.

Fixpoint starts_with (p s : jsstring) : bool :=
  match p, s with
  | [], _ => true
  | a :: p', b :: s' => (a =? b) && starts_with p' s'
  | _ :: _, [] => false
  end.

(** [s.includes(p)]: [p] occurs in [s] as a substring, case-sensitively. *)
Fixpoint includes (s p : jsstring) : bool :=
  starts_with p s ||
  match s with
  | [] => false
  | _ :: s' => includes s' p
  end.

Fixpoint str_eqb (a b : jsstring) : bool :=
  match a, b with
  | [], [] => true
  | x :: a', y :: b' => (x =? y) && str_eqb a' b'
  | _, _ => false
  end.

(** [s.replace(/<[^>]*>/g, '')].  [buf] is [None] outside a candidate tag
    and otherwise holds the code units read since its opening [<], which
    are dropped when [>] closes the match and kept when the input ends
    first (no match can start there: no [>] follows). *)
Fixpoint strip_tags_from (buf : option jsstring) (s : jsstring) : jsstring :=
  match s with
  | [] => match buf with None => [] | Some b => b end
  | c :: s' =>
      match buf with
      | None =>
          if c =? LT then strip_tags_from (Some [c]) s'
          else c :: strip_tags_from None s'
      | Some b =>
          if c =? GT then strip_tags_from None s'
          else strip_tags_from (Some (b ++ [c])) s'
      end
  end.

Definition strip_tags (s : jsstring) : jsstring := strip_tags_from None s.

(** [s.replace(/pat/g, rep)] for a literal, non-empty [pat]: matches are
    taken left to right and do not overlap; [skip] counts the code units
    of the current match still to be consumed. *)
Fixpoint replace_from (pat rep : jsstring) (skip : nat) (s : jsstring) : jsstring :=
  match s with
  | [] => []
  | c :: s' =>
      match skip with
      | S k => replace_from pat rep k s'
      | O =>
          if starts_with pat s
          then rep ++ replace_from pat rep (Nat.pred (List.length pat)) s'
          else c :: replace_from pat rep O s'
      end
  end.

Definition replace_all (pat rep s : jsstring) : jsstring := replace_from pat rep O s.

(** [s.replace(/\s+/g, ' ')]; [in_run] tells that the previous code unit
    was white space, already replaced. *)
Fixpoint collapse_from (in_run : bool) (s : jsstring) : jsstring :=
  match s with
  | [] => []
  | c :: s' =>
      if is_space c
      then (if in_run then collapse_from true s' else SPACE :: collapse_from true s')
      else c :: collapse_from false s'
  end.

Definition collapse_spaces (s : jsstring) : jsstring := collapse_from false s.

(** What the negated class of the last replacement does not match: word
    characters, white space, the Devanagari block and the punctuation. *)
Definition kept (c : N) : bool :=
  is_word c || is_space c || is_devanagari c || is_punct c.

Definition drop_disallowed (s : jsstring) : jsstring := List.filter kept s.

Fixpoint trim_start (s : jsstring) : jsstring :=
  match s with
  | [] => []
  | c :: s' => if is_space c then trim_start s' else s
  end.

Definition trim_end (s : jsstring) : jsstring := rev (trim_start (rev s)).

Definition trim (s : jsstring) : jsstring := trim_end (trim_start s).

End JsString.
Import JsString.

(** ** The text cleaner *)

(** [VoiceReader.cleanText]. *)
Definition cleanText (text : jsstring) : jsstring :=
  let t := strip_tags text in
  let t := replace_all (js "&nbsp;") (js " ") t in
  let t := replace_all (js "&amp;") (js "&") t in
  let t := replace_all (js "&lt;") (js "<") t in
  let t := replace_all (js "&gt;") (js ">") t in
  let t := replace_all (js "&quot;") [DQUOTE] t in
  let t := replace_all (js "&#39;") (js "'") t in
  let t := collapse_spaces t in
  let t := drop_disallowed t in
  trim t.

(** [VoiceReader.isHindiText]: the pattern [/[ऀ-ॿ]/] matches. *)
Definition isHindiText (text : jsstring) : bool := existsb is_devanagari text.

(** The allowlist of the specification: word characters, the Devanagari
    block and the fixed punctuation, together with the space. *)
Definition allowed (c : N) : bool :=
  is_word c || is_devanagari c || is_punct c || (c =? SPACE).

(** ** Numbers

    A JavaScript number is kept as [NaN], an infinity, or the exact
    rational a decimal literal denotes (the double the browser stores is
    the one nearest to it). *)

Inductive jsnum : Type :=
  | JNaN
  | JInf (negative : bool)
  | JFin (q : Q).

(** Truthiness of a number: everything but [0], [-0] and [NaN]. *)
Definition truthy (n : jsnum) : bool :=
  match n with
  | JNaN => false
  | JInf _ => true
  | JFin q => negb (Qnum q =? 0)%Z
  end.

(** [a || b] where [a] is a number or [undefined] ([None]). *)
Definition js_or (a : option jsnum) (b : jsnum) : jsnum :=
  match a with
  | Some n => if truthy n then n else b
  | None => b
  end.

(** [m * 10^e], in lowest terms. *)
Definition decimal (m : N) (e : Z) : Q :=
  Qred (Qmult (inject_Z (Z.of_N m)) (Qpower (inject_Z 10) e)).

Definition signed (negative : bool) (q : Q) : Q :=
  if negative then Qred (Qopp q) else q.

Definition digit_of (c : N) : option N :=
  if (48 <=? c) && (c <=? 57) then Some (c - 48) else None.

Fixpoint take_digits (s : jsstring) : list N * jsstring :=
  match s with
  | [] => ([], [])
  | c :: s' =>
      match digit_of c with
      | Some d => let '(ds, r) := take_digits s' in (d :: ds, r)
      | None => ([], s)
      end
  end.

Definition digits_value (ds : list N) : N :=
  fold_left (fun acc d => 10 * acc + d) ds 0.

Definition take_sign (s : jsstring) : bool * jsstring :=
  match s with
  | c :: s' =>
      if c =? 45 then (true, s')
      else if c =? 43 then (false, s')
      else (false, s)
  | [] => (false, [])
  end.

(** The value of an ExponentPart at the head of [s], [0] when there is none. *)
Definition take_exponent (s : jsstring) : Z :=
  match s with
  | c :: s' =>
      if (c =? 101) || (c =? 69) then
        let '(negative, r) := take_sign s' in
        match fst (take_digits r) with
        | [] => 0%Z
        | ds =>
            let v := Z.of_N (digits_value ds) in
            if negative then (- v)%Z else v
        end
      else 0%Z
  | [] => 0%Z
  end.

(** [parseFloat]: leading white space is skipped, the longest prefix that
    is a StrDecimalLiteral is read, and [NaN] is the answer when there is
    no such prefix. *)
Definition parseFloat (s : jsstring) : jsnum :=
  let '(negative, r) := take_sign (trim_start s) in
  if starts_with (js "Infinity") r then JInf negative
  else
    let '(ip, r1) := take_digits r in
    let '(fp, r2) :=
      match r1 with
      | c :: r' => if c =? 46 then take_digits r' else ([], r1)
      | [] => ([], [])
      end in
    match ip ++ fp with
    | [] => JNaN
    | ds =>
        JFin (signed negative
                (decimal (digits_value ds)
                         (take_exponent r2 - Z.of_nat (List.length fp))))
    end.

(** ** Voices, utterances and the speech engine *)

(** A [SpeechSynthesisVoice], as far as the reader looks at it. *)
Record Voice : Type := { name : jsstring; lang : jsstring }.

(** What [this.selectedVoice] can hold besides [null] and [undefined].
    It is assigned from [voices.find], [voices[0]] and [voices[key]] for a
    key read from the store or from the dialog; the last read finds, under
    a key that is not an index, the [length] of the array or a property
    every array inherits, and the code assigns what it finds. *)
Inductive Selected : Type :=
  | AVoice (v : Voice)
  | ALength (n : nat)
  | AnInherited (property : jsstring).

(** The truth value of what [selectedVoice] holds: objects and functions
    are truthy, a number is unless it is [0]. *)
Definition holds (x : option Selected) : bool :=
  match x with
  | None => false
  | Some (ALength n) => negb (Nat.eqb n 0)
  | Some _ => true
  end.

(** [x.lang]: [undefined] on a number and on the inherited methods. *)
Definition lang_of (x : Selected) : option jsstring :=
  match x with
  | AVoice v => Some (lang v)
  | _ => None
  end.

(** A [SpeechSynthesisUtterance] with the attributes [speak] assigns, each
    holding what was assigned to it ([None] is [null] or [undefined]). *)
Record Utterance : Type := {
  u_text : jsstring;
  u_voice : option Selected;
  u_rate : jsnum;
  u_pitch : jsnum;
  u_volume : jsnum;
  u_lang : option jsstring
}.

Inductive EngineCall : Type :=
  | CallSpeak (u : Utterance)
  | CallCancel
  | CallPause
  | CallResume.

(** [window.speechSynthesis].  [speaking] and [paused] are the attributes
    the reader queries, [queue] holds the utterances submitted and neither
    finished nor cancelled, [getVoices] is the list the engine reports at
    present, [speak_throws] tells a host whose [speak] raises, and [calls]
    records the methods invoked on the engine, oldest first. *)
Record SpeechSynthesis : Type := {
  speaking : bool;
  paused : bool;
  queue : list Utterance;
  getVoices : list Voice;
  speak_throws : bool;
  calls : list EngineCall
}.

(** The engine's methods, after the Web Speech API: [speak] appends to the
    queue and an engine that is not paused starts on it; [cancel] empties
    the queue and ends speaking, leaving the paused state alone; [pause]
    and [resume] switch the paused state, and a resumed engine starts on
    what is queued. *)
Definition synth_speak (u : Utterance) (s : SpeechSynthesis) : SpeechSynthesis :=
  {| speaking := speaking s || negb (paused s);
     paused := paused s;
     queue := queue s ++ [u];
     getVoices := getVoices s;
     speak_throws := speak_throws s;
     calls := calls s ++ [CallSpeak u] |}.

Definition synth_cancel (s : SpeechSynthesis) : SpeechSynthesis :=
  {| speaking := false;
     paused := paused s;
     queue := [];
     getVoices := getVoices s;
     speak_throws := speak_throws s;
     calls := calls s ++ [CallCancel] |}.

Definition synth_pause (s : SpeechSynthesis) : SpeechSynthesis :=
  {| speaking := speaking s;
     paused := true;
     queue := queue s;
     getVoices := getVoices s;
     speak_throws := speak_throws s;
     calls := calls s ++ [CallPause] |}.

Definition synth_resume (s : SpeechSynthesis) : SpeechSynthesis :=
  {| speaking := match queue s with [] => speaking s | _ :: _ => true end;
     paused := false;
     queue := queue s;
     getVoices := getVoices s;
     speak_throws := speak_throws s;
     calls := calls s ++ [CallResume] |}.

(** ** The reader and its page *)

Record Settings : Type := { rate : jsnum; pitch : jsnum; volume : jsnum }.

(** The optional second argument of [speak]; [None] is an absent property. *)
Record Options : Type := {
  o_rate : option jsnum;
  o_pitch : option jsnum;
  o_volume : option jsnum
}.

Definition no_options : Options :=
  {| o_rate := None; o_pitch := None; o_volume := None |}.

(** The argument of [updateUI]. *)
Inductive UiState : Type := UiPlaying | UiPaused | UiStopped.

(** The fields of a [VoiceReader] ([synth] is [None] on a host without
    speech synthesis) and what its methods reach on the page:
    [localStorage], the states passed to [updateUI] and the notifications
    shown, oldest first. *)
Record World : Type := {
  synth : option SpeechSynthesis;
  utterance : option Utterance;
  isReading : bool;
  isPaused : bool;
  currentText : jsstring;
  voices : list Voice;
  selectedVoice : option Selected;
  settings : Settings;
  localStorage : gmap string jsstring;
  ui : list UiState;
  notifications : list (string * string)
}.

Definition set_synth (s : option SpeechSynthesis) (w : World) : World :=
  {| synth := s; utterance := utterance w; isReading := isReading w;
     isPaused := isPaused w; currentText := currentText w; voices := voices w;
     selectedVoice := selectedVoice w; settings := settings w;
     localStorage := localStorage w; ui := ui w;
     notifications := notifications w |}.

Definition set_utterance (u : option Utterance) (w : World) : World :=
  {| synth := synth w; utterance := u; isReading := isReading w;
     isPaused := isPaused w; currentText := currentText w; voices := voices w;
     selectedVoice := selectedVoice w; settings := settings w;
     localStorage := localStorage w; ui := ui w;
     notifications := notifications w |}.

Definition set_isReading (b : bool) (w : World) : World :=
  {| synth := synth w; utterance := utterance w; isReading := b;
     isPaused := isPaused w; currentText := currentText w; voices := voices w;
     selectedVoice := selectedVoice w; settings := settings w;
     localStorage := localStorage w; ui := ui w;
     notifications := notifications w |}.

Definition set_isPaused (b : bool) (w : World) : World :=
  {| synth := synth w; utterance := utterance w; isReading := isReading w;
     isPaused := b; currentText := currentText w; voices := voices w;
     selectedVoice := selectedVoice w; settings := settings w;
     localStorage := localStorage w; ui := ui w;
     notifications := notifications w |}.

Definition set_currentText (t : jsstring) (w : World) : World :=
  {| synth := synth w; utterance := utterance w; isReading := isReading w;
     isPaused := isPaused w; currentText := t; voices := voices w;
     selectedVoice := selectedVoice w; settings := settings w;
     localStorage := localStorage w; ui := ui w;
     notifications := notifications w |}.

Definition set_voices (vs : list Voice) (w : World) : World :=
  {| synth := synth w; utterance := utterance w; isReading := isReading w;
     isPaused := isPaused w; currentText := currentText w; voices := vs;
     selectedVoice := selectedVoice w; settings := settings w;
     localStorage := localStorage w; ui := ui w;
     notifications := notifications w |}.

Definition set_selectedVoice (v : option Selected) (w : World) : World :=
  {| synth := synth w; utterance := utterance w; isReading := isReading w;
     isPaused := isPaused w; currentText := currentText w; voices := voices w;
     selectedVoice := v; settings := settings w;
     localStorage := localStorage w; ui := ui w;
     notifications := notifications w |}.

Definition set_settings (st : Settings) (w : World) : World :=
  {| synth := synth w; utterance := utterance w; isReading := isReading w;
     isPaused := isPaused w; currentText := currentText w; voices := voices w;
     selectedVoice := selectedVoice w; settings := st;
     localStorage := localStorage w; ui := ui w;
     notifications := notifications w |}.

Definition set_ui (l : list UiState) (w : World) : World :=
  {| synth := synth w; utterance := utterance w; isReading := isReading w;
     isPaused := isPaused w; currentText := currentText w; voices := voices w;
     selectedVoice := selectedVoice w; settings := settings w;
     localStorage := localStorage w; ui := l;
     notifications := notifications w |}.

Definition set_notifications (l : list (string * string)) (w : World) : World :=
  {| synth := synth w; utterance := utterance w; isReading := isReading w;
     isPaused := isPaused w; currentText := currentText w; voices := voices w;
     selectedVoice := selectedVoice w; settings := settings w;
     localStorage := localStorage w; ui := ui w;
     notifications := l |}.

(** The three states of the playback controller, read off the two flags. *)
Inductive Playback : Type := Idle | Speaking | Paused.

Definition playback (w : World) : Playback :=
  if isReading w then (if isPaused w then Paused else Speaking) else Idle.

(** ** Methods as state transformers that may throw

    A method takes the world to a result and a new world; [None] is an
    uncaught [TypeError], which is what reading a property of an absent
    [this.synth] raises. *)

Definition M (A : Type) : Type := World -> option (A * World).

Definition ret {A : Type} (a : A) : M A := fun w => Some (a, w).

Definition bind {A B : Type} (m : M A) (f : A -> M B) : M B :=
  fun w => match m w with
           | Some (a, w') => f a w'
           | None => None
           end.

Definition modify (f : World -> World) : M unit := fun w => Some (tt, f w).

Definition gets {A : Type} (f : World -> A) : M A := fun w => Some (f w, w).

Declare Scope js_scope.
Delimit Scope js_scope with js.
Notation "'let*' x ':=' m 'in' k" := (bind m (fun x => k))
  (at level 10, x name, m at level 100, k at level 200) : js_scope.
Notation "m ';;;' k" := (bind m (fun _ => k))
  (at level 100, k at level 200, right associativity) : js_scope.
Local Open Scope js_scope.

(** [this.synth], for a property read or a method call on it. *)
Definition the_synth : M SpeechSynthesis :=
  fun w => match synth w with
           | Some s => Some (s, w)
           | None => None
           end.

(** [this.synth.f()] for an engine method [f]. *)
Definition engine (f : SpeechSynthesis -> SpeechSynthesis) : M unit :=
  let* s := the_synth in modify (set_synth (Some (f s))).

Definition updateUI (st : UiState) : M unit :=
  modify (fun w => set_ui (ui w ++ [st]) w).

Definition showNotification (message kind : string) : M unit :=
  modify (fun w => set_notifications (notifications w ++ [(message, kind)]) w).

(** ** Voice selection *)

(** The list [preferredVoices] of [initializeVoices]: Hindi voices first,
    then English ones. *)
Definition hindiPreferred : list jsstring :=
  [ js "Microsoft Heera - Hindi (India)";
    js "Google " ++ [2361; 2367; 2344; 2381; 2342; 2368];
    js "Hindi (India)";
    js "hi-IN" ].

Definition englishPreferred : list jsstring :=
  [ js "Microsoft Zira - English (United States)";
    js "Google US English";
    js "Microsoft David - English (United States)";
    js "English (United States)";
    js "en-US" ].

Definition preferredVoices : list jsstring := hindiPreferred ++ englishPreferred.

(** The predicate handed to [voices.find] for the entry [preferred]. *)
Definition voice_matches (preferred : jsstring) (v : Voice) : bool :=
  includes (name v) preferred || str_eqb (name v) preferred
  || includes (lang v) preferred || str_eqb (lang v) preferred.

(** The [for ... of] loop over the preferences, left at the first entry
    for which [find] returns a voice. *)
Fixpoint select_from (prefs : list jsstring) (vs : list Voice) : option Voice :=
  match prefs with
  | [] => None
  | preferred :: rest =>
      match List.find (voice_matches preferred) vs with
      | Some v => Some v
      | None => select_from rest vs
      end
  end.

Definition selectPreferred (vs : list Voice) : option Voice :=
  select_from preferredVoices vs.

(** A property key that is an array index: the canonical decimal form of
    a natural number. *)
Definition array_index (key : jsstring) : option nat :=
  match take_digits key with
  | ([], _) => None
  | (d :: ds, []) =>
      if (d =? 0) && negb (Nat.eqb (List.length ds) 0) then None
      else Some (N.to_nat (digits_value (d :: ds)))
  | (_ :: _, _ :: _) => None
  end.

(** The element of [vs] a key names, when the key is an index. *)
Definition voice_at (vs : list Voice) (key : jsstring) : option Voice :=
  match array_index key with
  | Some i => vs !! i
  | None => None
  end.

(** The string keys every array answers to besides its indices and
    [length]: the properties of [Array.prototype] and [Object.prototype]
    of ECMAScript 2023.  Each is a function or an object. *)
Definition inherited_properties : list jsstring :=
  [ js "constructor"; js "at"; js "concat"; js "copyWithin"; js "entries";
    js "every"; js "fill"; js "filter"; js "find"; js "findIndex";
    js "findLast"; js "findLastIndex"; js "flat"; js "flatMap"; js "forEach";
    js "includes"; js "indexOf"; js "join"; js "keys"; js "lastIndexOf";
    js "map"; js "pop"; js "push"; js "reduce"; js "reduceRight";
    js "reverse"; js "shift"; js "slice"; js "some"; js "sort"; js "splice";
    js "toLocaleString"; js "toReversed"; js "toSorted"; js "toSpliced";
    js "toString"; js "unshift"; js "values"; js "with"; js "hasOwnProperty";
    js "isPrototypeOf"; js "propertyIsEnumerable"; js "valueOf";
    js "__proto__"; js "__defineGetter__"; js "__defineSetter__";
    js "__lookupGetter__"; js "__lookupSetter__" ].

Definition inherited (key : jsstring) : bool :=
  existsb (str_eqb key) inherited_properties.

(** [voices[key]] for a string [key]: the element at an index within the
    array, the length, an inherited property, and [undefined] for every
    other key. *)
Definition property_at (vs : list Voice) (key : jsstring) : option Selected :=
  match array_index key with
  | Some i => AVoice <$> vs !! i
  | None =>
      if str_eqb key (js "length") then Some (ALength (List.length vs))
      else if inherited key then Some (AnInherited key)
      else None
  end.

(** [VoiceReader.initializeVoices]. *)
Definition initializeVoices : M unit :=
  let* s := the_synth in
  modify (set_voices (getVoices s)) ;;;
  let* vs := gets voices in
  match vs with
  | [] => ret tt
  | first :: _ =>
      (let* sel := gets selectedVoice in
       if holds sel then ret tt
       else
         match selectPreferred vs with
         | Some voice => modify (set_selectedVoice (Some (AVoice voice)))
         | None => ret tt
         end) ;;;
      (let* sel := gets selectedVoice in
       if holds sel then ret tt
       else modify (set_selectedVoice (Some (AVoice first)))) ;;;
      let* savedVoiceIndex := gets (fun w => localStorage w !! "selectedVoiceIndex"%string) in
      match savedVoiceIndex with
      | Some (c :: key) =>
          if holds (property_at vs (c :: key)) then
            modify (set_selectedVoice (property_at vs (c :: key)))
          else ret tt
      | _ => ret tt
      end
  end.

(** ** Saved settings *)

Definition defaultSettings : Settings :=
  {| rate := JFin (decimal 8 (-1)); pitch := JFin (decimal 1 0);
     volume := JFin (decimal 9 (-1)) |}.

(** [if (saved) field = parseFloat(saved)]: [null] and the empty string
    are falsy. *)
Definition load_number (saved : option jsstring) (current : jsnum) : jsnum :=
  match saved with
  | Some (c :: s) => parseFloat (c :: s)
  | _ => current
  end.

(** [VoiceReader.loadSavedSettings]. *)
Definition loadSavedSettings : M unit :=
  let* store := gets localStorage in
  let savedRate := store !! "voiceRate"%string in
  let savedPitch := store !! "voicePitch"%string in
  let savedVolume := store !! "voiceVolume"%string in
  modify (fun w =>
    set_settings {| rate := load_number savedRate (rate (settings w));
                    pitch := pitch (settings w);
                    volume := volume (settings w) |} w) ;;;
  modify (fun w =>
    set_settings {| rate := rate (settings w);
                    pitch := load_number savedPitch (pitch (settings w));
                    volume := volume (settings w) |} w) ;;;
  modify (fun w =>
    set_settings {| rate := rate (settings w);
                    pitch := pitch (settings w);
                    volume := load_number savedVolume (volume (settings w)) |} w).

(** The auto-read flag, as [loadAutoReadSetting] and [autoStartReading]
    read it: [localStorage.getItem('autoReadSummary') === 'true']. *)
Definition loadAutoReadSetting (store : gmap string jsstring) : bool :=
  match store !! "autoReadSummary"%string with
  | Some v => str_eqb v (js "true")
  | None => false
  end.

(** The head of the constructor: the fields as assigned before the saved
    settings are loaded. *)
Definition fresh_reader (host : option SpeechSynthesis)
    (store : gmap string jsstring) : World :=
  {| synth := host; utterance := None; isReading := false; isPaused := false;
     currentText := []; voices := []; selectedVoice := None;
     settings := defaultSettings; localStorage := store; ui := [];
     notifications := [] |}.

(** [new VoiceReader()] (the timers that call [initializeVoices] again
    later are events of their own). *)
Definition new_VoiceReader (host : option SpeechSynthesis)
    (store : gmap string jsstring) : option World :=
  option_map snd ((loadSavedSettings ;;; initializeVoices) (fresh_reader host store)).

(** The preferences a session starts with. *)
Record VoicePreferences : Type := {
  pref_rate : jsnum;
  pref_pitch : jsnum;
  pref_volume : jsnum;
  pref_autoRead : bool
}.

Definition load (store : gmap string jsstring) : option VoicePreferences :=
  match loadSavedSettings (fresh_reader None store) with
  | Some (_, w) =>
      Some {| pref_rate := rate (settings w); pref_pitch := pitch (settings w);
              pref_volume := volume (settings w);
              pref_autoRead := loadAutoReadSetting store |}
  | None => None
  end.

(** ** Playback *)

Definition msgNoText : string := "कोई टेक्स्ट नहीं मिला पढ़ने के लिए।".
Definition msgUnsupported : string := "आपका ब्राउज़र वॉइस सपोर्ट नहीं करता।".
Definition msgFinished : string := "पढ़ना समाप्त हुआ। ✅".
Definition msgGeneric : string := "वॉइस में समस्या हुई।".
Definition msgNetwork : string := "नेटवर्क की समस्या। कनेक्शन चेक करें।".
Definition msgNotAllowed : string := "ब्राउज़र में वॉइस की अनुमति नहीं है।".
Definition msgLanguage : string := "यह भाषा सपोर्ट नहीं है।".
Definition msgRetry : string := " कृपया फिर से कोशिश करें।".
Definition msgUnavailable : string := "वॉइस सपोर्ट उपलब्ध नहीं है।".

(** [VoiceReader.stop]. *)
Definition stop : M bool :=
  let* s := the_synth in
  if speaking s || paused s then
    engine synth_cancel ;;;
    modify (set_isReading false) ;;;
    modify (set_isPaused false) ;;;
    updateUI UiStopped ;;;
    ret true
  else ret false.

(** [VoiceReader.pause]. *)
Definition pause : M bool :=
  let* s := the_synth in
  if speaking s && negb (paused s) then
    engine synth_pause ;;;
    modify (set_isPaused true) ;;;
    updateUI UiPaused ;;;
    ret true
  else ret false.

(** [VoiceReader.resume]. *)
Definition resume : M bool :=
  let* s := the_synth in
  if paused s then
    engine synth_resume ;;;
    modify (set_isPaused false) ;;;
    updateUI UiPlaying ;;;
    ret true
  else ret false.

(** The handlers [speak] attaches to the utterance; the engine runs them
    when it reports the event. *)
Definition onstart : M unit :=
  modify (set_isReading true) ;;;
  modify (set_isPaused false) ;;;
  updateUI UiPlaying.

Definition onend : M unit :=
  modify (set_isReading false) ;;;
  modify (set_isPaused false) ;;;
  updateUI UiStopped ;;;
  showNotification msgFinished "success".

(** [error] is [event.error]. *)
Definition onerror (error : jsstring) : M unit :=
  modify (set_isReading false) ;;;
  modify (set_isPaused false) ;;;
  updateUI UiStopped ;;;
  let errorMsg :=
    if str_eqb error (js "network") then msgNetwork
    else if str_eqb error (js "not-allowed") then msgNotAllowed
    else if str_eqb error (js "language-not-supported") then msgLanguage
    else msgGeneric in
  showNotification (errorMsg ++ msgRetry) "error".

Definition onpause : M unit :=
  modify (set_isPaused true) ;;;
  updateUI UiPaused.

Definition onresume : M unit :=
  modify (set_isPaused false) ;;;
  updateUI UiPlaying.

(** The utterance [speak] builds for the cleaned text. *)
Definition new_utterance (cleanedText : jsstring) (options : Options) (w : World)
    : Utterance :=
  {| u_text := cleanedText;
     u_voice := selectedVoice w;
     u_rate := js_or (o_rate options) (rate (settings w));
     u_pitch := js_or (o_pitch options) (pitch (settings w));
     u_volume := js_or (o_volume options) (volume (settings w));
     u_lang :=
       if holds (selectedVoice w) then selectedVoice w ≫= lang_of
       else Some (if isHindiText cleanedText then js "hi-IN" else js "en-US") |}.

(** [!text || text.trim() === ''] for a string [text]. *)
Definition no_text (text : jsstring) : bool :=
  match text with
  | [] => true
  | _ :: _ => match trim text with [] => true | _ :: _ => false end
  end.

(** [VoiceReader.speak]. *)
Definition speak (text : jsstring) (options : Options) : M bool :=
  if no_text text then
    showNotification msgNoText "warning" ;;;
    ret false
  else
    let* host := gets synth in
    match host with
    | None =>
        showNotification msgUnsupported "error" ;;;
        ret false
    | Some _ =>
        stop ;;;
        let cleanedText := cleanText text in
        modify (set_currentText cleanedText) ;;;
        let* u := gets (new_utterance cleanedText options) in
        modify (set_utterance (Some u)) ;;;
        let* s := the_synth in
        if speak_throws s then
          showNotification msgUnavailable "error" ;;;
          ret false
        else
          engine (synth_speak u) ;;;
          ret true
    end.

(** The engine's events for the utterance in hand, each delivered to its
    handler. *)
Inductive EngineEvent : Type :=
  | Began
  | Ended
  | Failed (error : jsstring)
  | EnginePaused
  | EngineResumed.

Definition handle (e : EngineEvent) : M unit :=
  match e with
  | Began => onstart
  | Ended => onend
  | Failed error => onerror error
  | EnginePaused => onpause
  | EngineResumed => onresume
  end.

(** A host with speech synthesis that is silent and reports [vs]. *)
Definition idle_engine (vs : list Voice) : SpeechSynthesis :=
  {| speaking := false; paused := false; queue := []; getVoices := vs;
     speak_throws := false; calls := [] |}.

(** ** Worlds and predicates used in the statements *)

(** [options.f] is absent or a falsy number. *)
Definition falsy_option (o : option jsnum) : bool :=
  match o with
  | None => true
  | Some n => negb (truthy n)
  end.

(** A reader just constructed on a silent host without voices and with an
    empty store. *)
Definition quiet_world : World := fresh_reader (Some (idle_engine [])) ∅.

(** The world [m] leads to from [w], or [w] itself when [m] throws. *)
Definition after {A : Type} (m : M A) (w : World) : World :=
  match m w with
  | Some (_, w') => w'
  | None => w
  end.

(** The reader while it reads "Hello": [speak] was called and the engine
    reported the start. *)
Definition playing_world : World :=
  after (speak (js "Hello") no_options ;;; handle Began) quiet_world.

(** The world an effective [stop] leaves: the engine cancelled, both
    flags cleared, the interface told. *)
Definition stopped (s : SpeechSynthesis) (w : World) : World :=
  set_ui (ui w ++ [UiStopped])
    (set_isPaused false
       (set_isReading false (set_synth (Some (synth_cancel s)) w))).

(** The world [speak] leaves when it hands [u] to the engine [s]. *)
Definition submitted (u : Utterance) (s : SpeechSynthesis) (w : World) : World :=
  set_synth (Some (synth_speak u s))
    (set_utterance (Some u) (set_currentText (u_text u) w)).

(** The engine's flags agree with its queue: while an utterance is
    queued, the engine reports that it speaks or that it is paused. *)
Definition engine_coherent (s : SpeechSynthesis) : Prop :=
  queue s <> [] -> speaking s || paused s = true.

(** The reader right after [speak] was called for "first". *)
Definition first_world : World := after (speak (js "first") no_options) quiet_world.

(** The reader after [pause] was called while it read "Hello". *)
Definition paused_world : World := after pause playing_world.

(** Options that ask for a zero rate and a [NaN] pitch and leave the
    volume out. *)
Definition zero_options : Options :=
  {| o_rate := Some (JFin 0); o_pitch := Some JNaN; o_volume := None |}.

(** A catalog in which a voice tagged [en-US] carries a Hindi name. *)
Definition hindi_named : Voice := {| name := js "Hindi (India)"; lang := js "en-US" |}.
Definition lekha : Voice := {| name := js "Lekha"; lang := js "hi-IN" |}.
Definition samantha : Voice := {| name := js "Samantha"; lang := js "en-US" |}.
Definition mixed_catalog : list Voice := [hindi_named; lekha].
Definition plain_catalog : list Voice := [samantha; lekha].

(** A store whose saved rate is not a number. *)
Definition malformed_store : gmap string jsstring :=
  {[ "voiceRate"%string := js "abc" ]}.

(** A store that names the voice at index 5, and a reader built on a host
    that reports two voices. *)
Definition stale_store : gmap string jsstring :=
  {[ "selectedVoiceIndex"%string := js "5" ]}.

Definition stale_world : World :=
  fresh_reader (Some (idle_engine plain_catalog)) stale_store.

(** A host that offers three voices, a store that names the third, and
    the reader built there; then the host withdraws the third voice, as
    a [voiceschanged] event reports. *)
Definition heera : Voice :=
  {| name := js "Microsoft Heera - Hindi (India)"; lang := js "hi-IN" |}.

Definition full_catalog : list Voice := [samantha; heera; lekha].
Definition shrunk_catalog : list Voice := [samantha; heera].

Definition chosen_store : gmap string jsstring :=
  {[ "selectedVoiceIndex"%string := js "2" ]}.

Definition chosen_world : World :=
  after initializeVoices (fresh_reader (Some (idle_engine full_catalog)) chosen_store).

Definition shrunk_world : World :=
  set_synth (Some (idle_engine shrunk_catalog)) chosen_world.

(** A store whose saved voice index is the word [length]. *)
Definition length_store : gmap string jsstring :=
  {[ "selectedVoiceIndex"%string := js "length" ]}.

Definition length_world : World :=
  fresh_reader (Some (idle_engine plain_catalog)) length_store.

(** A sufficient reason for [parseFloat] to find no number: after the
    leading white space the string is over, or it goes on with something
    that is neither a digit, a sign, a point nor the letter I. *)
Definition starts_no_number (s : jsstring) : bool :=
  match trim_start s with
  | [] => true
  | c :: _ =>
      match digit_of c with
      | Some _ => false
      | None => negb ((c =? 43) || (c =? 45) || (c =? 46) || (c =? 73))
      end
  end.

(** ** Further code of the voice reader *)

(** The argument of [getCleanText]: a string, an element (of which only
    [textContent] is read), or anything else. *)
Inductive TextSource : Type :=
  | TextString (s : jsstring)
  | TextElement (textContent : jsstring)
  | TextOther.

(** [VoiceReader.getCleanText]; an element whose [textContent] is the
    empty string is falsy in the second test. *)
Definition getCleanText (element : TextSource) : jsstring :=
  match element with
  | TextString s => cleanText s
  | TextElement (c :: t) => cleanText (c :: t)
  | TextElement [] => []
  | TextOther => []
  end.

(** A string without white space at either end. *)
Definition trimmed (s : jsstring) : Prop :=
  trim_start s = s /\ trim_start (rev s) = rev s.

(** The utterances the engine of [w] was asked to speak, oldest first. *)
Definition spoken (w : World) : list Utterance :=
  match synth w with
  | Some s =>
      flat_map (fun c => match c with CallSpeak u => [u] | _ => [] end) (calls s)
  | None => []
  end.

(** [speak] called for each text of a list in turn, with no options. *)
Fixpoint speak_each (texts : list jsstring) : M unit :=
  match texts with
  | [] => ret tt
  | text :: rest => speak text no_options ;;; speak_each rest
  end.

Definition set_localStorage (store : gmap string jsstring) (w : World) : World :=
  {| synth := synth w; utterance := utterance w; isReading := isReading w;
     isPaused := isPaused w; currentText := currentText w; voices := voices w;
     selectedVoice := selectedVoice w; settings := settings w;
     localStorage := store; ui := ui w;
     notifications := notifications w |}.

Definition msgAutoReadOn : string := "ऑटो-रीडिंग चालू की गई। ✅".
Definition msgAutoReadOff : string := "ऑटो-रीडिंग बंद की गई। ❌".

(** [isChecked.toString()]. *)
Definition bool_toString (b : bool) : jsstring :=
  if b then js "true" else js "false".

(** [toggleAutoRead]; [checkbox] is the [checked] state of the element
    [autoReadToggle], [None] when the page has no such element. *)
Definition toggleAutoRead (checkbox : option bool) : M unit :=
  let isChecked := match checkbox with Some c => c | None => false end in
  modify (fun w =>
    set_localStorage
      (<["autoReadSummary"%string := bool_toString isChecked]> (localStorage w)) w) ;;;
  showNotification (if isChecked then msgAutoReadOn else msgAutoReadOff) "info".

(** A reader built on a host that reports the two voices of
    [plain_catalog], with an empty store. *)
Definition voiced_world : World :=
  fresh_reader (Some (idle_engine plain_catalog)) ∅.

(** ** The controls on the page

    What a call of [updateUI] does to the document: the three buttons
    [playBtn], [pauseBtn] and [stopBtn], each of which may be missing,
    and the buttons whose [onclick] starts with [readChapter].  Of a
    button the class list and [innerHTML] are kept. *)

Module Dom.

Record Button : Type := { classList : gset string; innerHTML : string }.

Definition classList_add (c : string) (b : Button) : Button :=
  {| classList := {[c]} ∪ classList b; innerHTML := innerHTML b |}.

Definition classList_remove (c : string) (b : Button) : Button :=
  {| classList := classList b ∖ {[c]}; innerHTML := innerHTML b |}.

Definition set_innerHTML (html : string) (b : Button) : Button :=
  {| classList := classList b; innerHTML := html |}.

Record Controls : Type := {
  playBtn : option Button;
  pauseBtn : option Button;
  stopBtn : option Button;
  chapterButtons : list Button
}.

(** The double quote, for the attributes in the markup below. *)
Definition dq : string := String (ascii_of_nat 34) EmptyString.

Definition icon (name : string) : string :=
  ("<i class=" ++ dq ++ "fas " ++ name ++ " mr-1" ++ dq ++ "></i>")%string.

Definition label (text : string) : string :=
  ("<span class=" ++ dq ++ "hidden sm:inline" ++ dq ++ ">" ++ text ++ "</span>")%string.

Definition htmlListen : string := (icon "fa-play" ++ " " ++ label "सुनें")%string.
Definition htmlContinue : string := (icon "fa-play" ++ " " ++ label "जारी रखें")%string.
Definition htmlListening : string :=
  (icon "fa-volume-up" ++ " " ++ label "सुन रहे हैं...")%string.

(** [VoiceReader.updateChapterButtons]. *)
Definition updateChapterButtons (state : UiState) (btns : list Button) : list Button :=
  List.map
    (fun btn =>
       match state with
       | UiPlaying => classList_add "opacity-50" (set_innerHTML htmlListening btn)
       | _ => classList_remove "opacity-50" (set_innerHTML htmlListen btn)
       end)
    btns.

(** [VoiceReader.updateUI], on the document. *)
Definition updateUI (state : UiState) (d : Controls) : Controls :=
  match playBtn d with
  | None => d
  | Some play =>
      let pause := option_map (classList_add "hidden") (pauseBtn d) in
      let stop := option_map (classList_add "hidden") (stopBtn d) in
      let play := classList_remove "hidden" play in
      match state with
      | UiPlaying =>
          {| playBtn := Some (classList_add "hidden" play);
             pauseBtn := option_map (classList_remove "hidden") pause;
             stopBtn := option_map (classList_remove "hidden") stop;
             chapterButtons := updateChapterButtons state (chapterButtons d) |}
      | UiPaused =>
          {| playBtn := Some (set_innerHTML htmlContinue (classList_remove "hidden" play));
             pauseBtn := pause;
             stopBtn := option_map (classList_remove "hidden") stop;
             chapterButtons := updateChapterButtons state (chapterButtons d) |}
      | UiStopped =>
          {| playBtn := Some (set_innerHTML htmlListen (classList_remove "hidden" play));
             pauseBtn := pause;
             stopBtn := stop;
             chapterButtons := updateChapterButtons state (chapterButtons d) |}
      end
  end.

(** The document after the calls of [updateUI] that a list records, in
    order. *)
Definition render (log : list UiState) (d : Controls) : Controls :=
  fold_left (fun d state => updateUI state d) log d.

(** The class lists of the three buttons, and the chapter buttons. *)
Definition classes (d : Controls)
    : option (gset string) * option (gset string) * option (gset string)
      * list Button :=
  (option_map classList (playBtn d), option_map classList (pauseBtn d),
   option_map classList (stopBtn d), chapterButtons d).

(** A page with the three buttons, all hidden and styled, and one
    chapter button. *)
Definition sample_button : Button :=
  {| classList := {[ "hidden"%string; "btn"%string ]}; innerHTML := htmlListen |}.

Definition sample_controls : Controls :=
  {| playBtn := Some sample_button; pauseBtn := Some sample_button;
     stopBtn := Some sample_button; chapterButtons := [sample_button] |}.

End Dom.

(** ** The page around the reader

    The functions the page calls on the global [voiceReader], with what
    they read of the document: the text of the element [overallSummary]
    ([None] while it does not exist), the texts of the elements
    [chapter-content-0], [chapter-content-1], ... in document order,
    whether the section [summarySection] exists and is not hidden, and
    the timers set and not yet run, each with its delay in
    milliseconds. *)

Inductive Task : Type :=
  | TaskInitializeVoices
  | TaskReadSummary
  | TaskAutoRead
  | TaskRestoreVoice (originalVoice : option Selected).

(** [voiceReader] tells whether the global is set; the fields of the
    reader in [world] count only then, while the engine of the host, the
    store and the notifications are there in any case. *)
Record Page : Type := {
  voiceReader : bool;
  world : World;
  overallSummary : option jsstring;
  chapterContent : list jsstring;
  summaryShown : bool;
  timers : list (nat * Task)
}.

Definition set_world (w : World) (p : Page) : Page :=
  {| voiceReader := voiceReader p; world := w;
     overallSummary := overallSummary p; chapterContent := chapterContent p;
     summaryShown := summaryShown p; timers := timers p |}.

Definition setTimeout (task : Task) (delay : nat) (p : Page) : Page :=
  {| voiceReader := voiceReader p; world := world p;
     overallSummary := overallSummary p; chapterContent := chapterContent p;
     summaryShown := summaryShown p; timers := timers p ++ [(delay, task)] |}.

(** A notification shown by the page. *)
Definition notify (message kind : string) (p : Page) : Page :=
  set_world
    (set_notifications (notifications (world p) ++ [(message, kind)]) (world p)) p.

(** A method of the reader called from the page; the page is as it was
    when the method throws. *)
Definition call {A : Type} (m : M A) (p : Page) : option (A * Page) :=
  match m (world p) with
  | Some (a, w) => Some (a, set_world w p)
  | None => None
  end.

(** [voiceReader = new VoiceReader()]: the fields as the constructor
    assigns them, the saved settings, the voices, and the two timers that
    look for voices again. *)
Definition construct (p : Page) : option Page :=
  let w := world p in
  let blank :=
    set_notifications (notifications w)
      (set_ui (ui w) (fresh_reader (synth w) (localStorage w))) in
  match (loadSavedSettings ;;; initializeVoices) blank with
  | Some (_, w') =>
      Some (setTimeout TaskInitializeVoices 3000
              (setTimeout TaskInitializeVoices 1000
                 {| voiceReader := true; world := w';
                    overallSummary := overallSummary p;
                    chapterContent := chapterContent p;
                    summaryShown := summaryShown p; timers := timers p |}))
  | None => None
  end.

Definition msgNoSummary : string := "पहले समरी जनरेट करें।".
Definition msgSummaryEmpty : string := "समरी में कोई टेक्स्ट नहीं मिला।".
Definition msgResumed : string := "वॉइस जारी की गई। 🔊".
Definition msgReadingSummary : string := "समरी पढ़ी जा रही है... 🔊".
Definition msgStartFailed : string := "वॉइस शुरू करने में समस्या हुई।".
Definition msgPaused : string := "वॉइस रोकी गई। ⏸️".
Definition msgStopped : string := "वॉइस बंद की गई। ⏹️".
Definition msgNoChapters : string := "कोई चैप्टर नहीं मिला।".
Definition msgChaptersEmpty : string := "चैप्टर्स में कोई टेक्स्ट नहीं मिला।".
Definition msgReadingAll : string := "सभी चैप्टर्स पढ़े जा रहे हैं... 📚🔊".

(** [readSummary]. *)
Definition readSummary (p : Page) : option Page :=
  if negb (voiceReader p) then
    option_map (setTimeout TaskReadSummary 500) (construct p)
  else
    match overallSummary p with
    | None => Some (notify msgNoSummary "warning" p)
    | Some content =>
        match getCleanText (TextElement content) with
        | [] => Some (notify msgSummaryEmpty "warning" p)
        | c :: t =>
            let start :=
              match call (speak (c :: t) no_options) p with
              | Some (true, p') => Some (notify msgReadingSummary "success" p')
              | Some (false, p') => Some (notify msgStartFailed "error" p')
              | None => None
              end in
            if isPaused (world p) then
              match synth (world p) with
              | None => None
              | Some s =>
                  if paused s then
                    match call resume p with
                    | Some (true, p') => Some (notify msgResumed "success" p')
                    | Some (false, p') => Some p'
                    | None => None
                    end
                  else start
              end
            else start
        end
    end.

(** [pauseReading]. *)
Definition pauseReading (p : Page) : option Page :=
  if voiceReader p && isReading (world p) && negb (isPaused (world p)) then
    match call pause p with
    | Some (true, p') => Some (notify msgPaused "info" p')
    | Some (false, p') => Some p'
    | None => None
    end
  else Some p.

(** [stopReading]. *)
Definition stopReading (p : Page) : option Page :=
  if voiceReader p then
    match call stop p with
    | Some (true, p') => Some (notify msgStopped "info" p')
    | Some (false, p') => Some p'
    | None => None
    end
  else Some p.

(** [if (!voiceReader) voiceReader = new VoiceReader()]. *)
Definition ensure_reader (p : Page) : option Page :=
  if voiceReader p then Some p else construct p.


(** The text [readAllChapters] puts together: for each chapter whose
    cleaned text is not empty, its number on the page, the text and the
    announcement of the next chapter. *)
Fixpoint allText (index : nat) (contents : list jsstring) : jsstring :=
  match contents with
  | [] => []
  | content :: rest =>
      match getCleanText (TextElement content) with
      | [] => []
      | c :: t =>
          [2330; 2376; 2346; 2381; 2335; 2352; 32] ++ js (pretty (index + 1)%nat)
          ++ [2404; 32] ++ (c :: t)
          ++ [2404; 32; 2309; 2327; 2354; 2366; 32;
              2330; 2376; 2346; 2381; 2335; 2352; 2404; 32]
      end ++ allText (S index) rest
  end.

(** [readAllChapters]. *)
Definition readAllChapters (p : Page) : option Page :=
  match ensure_reader p with
  | None => None
  | Some p =>
      match chapterContent p with
      | [] => Some (notify msgNoChapters "warning" p)
      | _ :: _ =>
          match allText 0 (chapterContent p) with
          | [] => Some (notify msgChaptersEmpty "warning" p)
          | c :: t =>
              match call (speak (c :: t) no_options) p with
              | Some (true, p') => Some (notify msgReadingAll "success" p')
              | Some (false, p') => Some p'
              | None => None
              end
          end
      end
  end.

(** [autoStartReading]: the check of the stored flag is left to a timer. *)
Definition autoStartReading (p : Page) : option Page :=
  Some (setTimeout TaskAutoRead 2000 p).

(** What a timer does when it runs. *)
Definition run_task (task : Task) (p : Page) : option Page :=
  match task with
  | TaskInitializeVoices => option_map snd (call initializeVoices p)
  | TaskReadSummary => readSummary p
  | TaskAutoRead =>
      match localStorage (world p) !! "autoReadSummary"%string with
      | Some autoRead => if str_eqb autoRead (js "true") then readSummary p else Some p
      | None => Some p
      end
  | TaskRestoreVoice originalVoice =>
      Some (set_world (set_selectedVoice originalVoice (world p)) p)
  end.

(** The global [loadVoiceSettings]. *)
Definition loadVoiceSettings (p : Page) : option Page :=
  match localStorage (world p) !! "selectedVoiceIndex"%string with
  | Some (c :: key) =>
      if voiceReader p && holds (property_at (voices (world p)) (c :: key)) then
        Some (set_world
                (set_selectedVoice (property_at (voices (world p)) (c :: key))
                   (world p)) p)
      else Some p
  | _ => Some p
  end.

(** A [keydown] event: the tag of its target, the two modifiers, the key. *)
Record KeyEvent : Type := {
  targetTag : string;
  ctrlKey : bool;
  shiftKey : bool;
  key : string
}.

(** [voiceReader.synth.paused] behind the test of [voiceReader]. *)
Definition engine_paused (p : Page) : option bool :=
  option_map paused (synth (world p)).

(** The [keydown] listener of the voice controls. *)
Definition onKeydown (event : KeyEvent) (p : Page) : option Page :=
  if String.eqb (targetTag event) "INPUT" || String.eqb (targetTag event) "TEXTAREA"
     || String.eqb (targetTag event) "SELECT"
  then Some p
  else
    let chord := ctrlKey event && shiftKey event in
    let pauseOrResume (p : Page) : option Page :=
      match engine_paused p with
      | None => None
      | Some true => option_map snd (call resume p)
      | Some false => pauseReading p
      end in
    let step1 (p : Page) : option Page :=
      if chord && String.eqb (key event) "R" then readSummary p else Some p in
    let step2 (p : Page) : option Page :=
      if chord && String.eqb (key event) "P" then
        (if voiceReader p then pauseOrResume p else pauseReading p)
      else Some p in
    let step3 (p : Page) : option Page :=
      if chord && String.eqb (key event) "S" then stopReading p else Some p in
    let step4 (p : Page) : option Page :=
      if String.eqb (key event) " " && summaryShown p then
        (if voiceReader p && isReading (world p) then pauseOrResume p
         else readSummary p)
      else Some p in
    match step1 p with
    | None => None
    | Some p =>
        match step2 p with
        | None => None
        | Some p =>
            match step3 p with
            | None => None
            | Some p => step4 p
            end
        end
    end.

(** A page with a reader that reads "Hello", a summary and three
    chapters, the second of them markup only. *)
Definition reading_page : Page :=
  {| voiceReader := true; world := playing_world;
     overallSummary := Some (js "<p>A tale of two cities.</p>");
     chapterContent := [js "It was the best of times."; js "<br>"; js "The end."];
     summaryShown := true; timers := [] |}.

(** The same page before a reader exists. *)
Definition blank_page : Page :=
  {| voiceReader := false; world := quiet_world;
     overallSummary := Some (js "<p>A tale of two cities.</p>");
     chapterContent := [js "It was the best of times."; js "<br>"; js "The end."];
     summaryShown := true; timers := [] |}.

(** The space bar pressed on the page itself. *)
Definition space_key : KeyEvent :=
  {| targetTag := "BODY"; ctrlKey := false; shiftKey := false; key := " " |}.


(** The reading page after [pause] was called. *)
Definition paused_page : Page := set_world paused_world reading_page.

(** ** The settings dialog and the chat's own speech *)

Definition msgSettingsSaved : string := "वॉइस सेटिंग्स सेव हो गईं। ✅".
Definition msgNoSpeech : string := "Text-to-speech not supported in this browser".

(** The two sentences of [testVoice] and the word its test looks at. *)
Definition namaste : jsstring := [2344; 2350; 2360; 2381; 2340; 2375].

Definition hindiTest : jsstring :=
  [2344; 2350; 2360; 2381; 2340; 2375; 33; 32; 2351; 2361; 32; 2319; 2325;
   32; 2335; 2375; 2360; 2381; 2335; 32; 2361; 2376; 2404; 32; 2310; 2346;
   2325; 2368; 32; 2310; 2357; 2366; 2332; 2364; 32; 2325; 2376; 2360;
   2368; 32; 2354; 2327; 32; 2352; 2361; 2368; 32; 2361; 2376; 63].

Definition englishTest : jsstring := js "Hello! This is a voice test. How does it sound?".

(** [testVoice]; each argument is the [value] of the element of the
    dialog, [None] when the element is not there. *)
Definition testVoice (voiceSelect rateSlider volumeSlider : option jsstring)
    (p : Page) : option Page :=
  if negb (voiceReader p) then Some p
  else
    let w := world p in
    let testText := if isHindiText namaste then hindiTest else englishTest in
    let testOptions :=
      {| o_rate := Some match rateSlider with
                        | Some value => parseFloat value
                        | None => rate (settings w)
                        end;
         o_pitch := Some (pitch (settings w));
         o_volume := Some match volumeSlider with
                          | Some value => parseFloat value
                          | None => volume (settings w)
                          end |} in
    let chosen :=
      match voiceSelect with
      | Some value => property_at (voices w) value
      | None => None
      end in
    if holds chosen then
      let originalVoice := selectedVoice w in
      match call (speak testText testOptions)
              (set_world (set_selectedVoice chosen w) p) with
      | Some (_, p') => Some (setTimeout (TaskRestoreVoice originalVoice) 5000 p')
      | None => None
      end
    else option_map snd (call (speak testText testOptions) p).

(** [speakMessage] of the chat: the text as it is, in English, at rate
    and pitch 1 (the volume of a new utterance is 1 and it has no
    voice), handed to the engine without more ado; [speak] of the engine
    is not guarded here. *)
Definition speakMessage (text : jsstring) : M unit :=
  let* host := gets synth in
  match host with
  | None => showNotification msgNoSpeech "error"
  | Some s =>
      if speak_throws s then (fun _ => None)
      else
        engine (synth_speak
                  {| u_text := text; u_voice := None; u_rate := JFin 1;
                     u_pitch := JFin 1; u_volume := JFin 1;
                     u_lang := Some (js "en-US") |})
  end.

Section Printing.

(** [Number.prototype.toString], whose digits are those of the double
    and so are not fixed by the rational kept here. *)
Variable toString : jsnum -> jsstring.

(** [VoiceReader.saveSettings]. *)
Definition saveSettings : M unit :=
  modify (fun w =>
    set_localStorage
      (<["voiceVolume"%string := toString (volume (settings w))]>
         (<["voicePitch"%string := toString (pitch (settings w))]>
            (<["voiceRate"%string := toString (rate (settings w))]>
               (localStorage w)))) w).

(** [applyVoiceSettings]; [modal] tells whether the document has an
    element for [.fixed.inset-0] to remove.  The result is the page
    afterwards and whether the function returned rather than threw. *)
Definition applyVoiceSettings (voiceSelect rateSlider volumeSlider : option jsstring)
    (modal : bool) (p : Page) : Page * bool :=
  let on_reader (f : World -> World) (p : Page) : Page :=
    if voiceReader p then set_world (f (world p)) p else p in
  let p :=
    match voiceSelect with
    | Some value =>
        on_reader (fun w =>
          set_localStorage (<["selectedVoiceIndex"%string := value]> (localStorage w))
            (set_selectedVoice (property_at (voices w) value) w)) p
    | None => p
    end in
  let p :=
    match rateSlider with
    | Some value =>
        on_reader (fun w =>
          set_localStorage (<["voiceRate"%string := value]> (localStorage w))
            (set_settings {| rate := parseFloat value; pitch := pitch (settings w);
                             volume := volume (settings w) |} w)) p
    | None => p
    end in
  let p :=
    match volumeSlider with
    | Some value =>
        on_reader (fun w =>
          set_localStorage (<["voiceVolume"%string := value]> (localStorage w))
            (set_settings {| rate := rate (settings w); pitch := pitch (settings w);
                             volume := parseFloat value |} w)) p
    | None => p
    end in
  if voiceReader p then
    let p := set_world (after saveSettings (world p)) p in
    let p := notify msgSettingsSaved "success" p in
    (p, modal)
  else (p, false).

End Printing.

(** A page whose reader knows the two voices of [plain_catalog]. *)
Definition voiced_page : Page :=
  {| voiceReader := true; world := after initializeVoices voiced_world;
     overallSummary := None; chapterContent := []; summaryShown := false;
     timers := [] |}.

(** A page whose reader has not looked for voices yet, on a host with two
    voices and a store that names the first of them. *)
Definition saved_page : Page :=
  {| voiceReader := true;
     world := fresh_reader (Some (idle_engine plain_catalog))
                {[ "selectedVoiceIndex"%string := js "0" ]};
     overallSummary := None; chapterContent := []; summaryShown := false;
     timers := [] |}.

(** A printer of numbers for the examples; the statements about the
    dialog hold for every printer. *)
Definition stand_in_printer (n : jsnum) : jsstring := js "0.8".

(** * Properties *)

(** The constructor, run on a silent host without voices and an empty
    store, gives [quiet_world]. *)
Example quiet_world_constructed :
  new_VoiceReader (Some (idle_engine [])) ∅ = Some quiet_world.
Proof. reflexivity. Qed.

(** ** The text cleaner *)

Example cleanText_empty : cleanText [] = [].
Proof. reflexivity. Qed.

Example cleanText_blank : cleanText (js "   ") = [].
Proof. reflexivity. Qed.

Example cleanText_markup : cleanText (js "<b></b>") = [].
Proof. reflexivity. Qed.

Example cleanText_sample :
  cleanText (js "<p>Tom &amp; Jerry:   a &lt;b&gt; 'tale'!</p>")
  = js "Tom  Jerry: a b 'tale'!".
Proof. vm_compute. reflexivity. Qed.

Example isHindiText_namaste : isHindiText [2344; 2350; 2360; 2381; 2340; 2375] = true.
Proof. reflexivity. Qed.

Example isHindiText_hello : isHindiText (js "Hello") = false.
Proof. reflexivity. Qed.

Section CleanText.

(** After the white-space runs are collapsed, the only white space left
    is the space itself. *)
Let tidy (c : N) : Prop := is_space c = true -> c = SPACE.

Lemma collapse_from_tidy (b : bool) (s : jsstring) :
  Forall tidy (collapse_from b s).
Proof.
  revert b. induction s as [|c s IH]; intros b; simpl.
  - constructor.
  - destruct (is_space c) eqn:Hc.
    + destruct b; [apply IH|]. constructor; [easy | apply IH].
    + constructor; [|apply IH]. intros H. unfold tidy. congruence.
Qed.

Lemma trim_start_Forall (P : N -> Prop) (s : jsstring) :
  Forall P s -> Forall P (trim_start s).
Proof.
  induction 1 as [|c s Hc Hs IH]; simpl; [constructor|].
  destruct (is_space c); [exact IH | constructor; assumption].
Qed.

Lemma trim_Forall (P : N -> Prop) (s : jsstring) :
  Forall P s -> Forall P (trim s).
Proof.
  intros H. unfold trim, trim_end.
  apply Forall_rev, trim_start_Forall, Forall_rev, trim_start_Forall, H.
Qed.

Lemma kept_tidy_allowed (c : N) :
  kept c = true -> tidy c -> allowed c = true.
Proof.
  unfold kept, allowed, tidy. intros Hk Ht.
  destruct (is_word c); [reflexivity|].
  destruct (is_devanagari c); [simpl; reflexivity|].
  destruct (is_punct c); [simpl; reflexivity|].
  simpl in *. rewrite !orb_false_r in Hk. rewrite (Ht Hk). reflexivity.
Qed.

Lemma allowed_not_delimiter (c : N) :
  allowed c = true -> c <> LT /\ c <> GT.
Proof.
  intros H. split; intros ->; vm_compute in H; discriminate.
Qed.

End CleanText.

(** C4.  Whatever the input, [cleanText] returns a string (it is a total
    function) all of whose code units are on the allowlist (word
    characters, the Devanagari block, the punctuation marks of
    [punctuation], or the space) and none of which is the markup delimiter [<] or [>]. *)
Theorem cleanText_allowlist (text : jsstring) :
  Forall (fun c => allowed c = true /\ c <> LT /\ c <> GT) (cleanText text).
Proof.
  unfold cleanText. apply trim_Forall.
  unfold drop_disallowed, collapse_spaces.
  match goal with |- context [collapse_from false ?t] => generalize t end.
  intros t. pose proof (collapse_from_tidy false t) as Ht.
  induction Ht as [|c l Hc Hl IH]; simpl; [constructor|].
  destruct (kept c) eqn:Hk; [|exact IH].
  constructor; [|exact IH].
  pose proof (kept_tidy_allowed c Hk Hc) as Ha.
  split; [exact Ha | apply allowed_not_delimiter, Ha].
Qed.

(** ** Playback *)

Ltac run :=
  unfold speak, stop, pause, resume, handle, onstart, onend, onerror, onpause,
    onresume, engine, the_synth, updateUI, showNotification, bind, ret, modify,
    gets;
  cbn.

Ltac step H := rewrite H; cbn.

Section Playback.

Variables (w : World) (s : SpeechSynthesis).
Hypothesis Hsynth : synth w = Some s.

Lemma stop_active :
  speaking s || paused s = true -> stop w = Some (true, stopped s w).
Proof. intros Hsp. run. step Hsynth. step Hsp. step Hsynth. reflexivity. Qed.

Lemma stop_inactive :
  speaking s || paused s = false -> stop w = Some (false, w).
Proof. intros Hsp. run. step Hsynth. step Hsp. reflexivity. Qed.

Lemma pause_effective :
  speaking s && negb (paused s) = true ->
  pause w = Some (true, set_ui (ui w ++ [UiPaused])
                          (set_isPaused true (set_synth (Some (synth_pause s)) w))).
Proof. intros Hsp. run. step Hsynth. step Hsp. step Hsynth. reflexivity. Qed.

Lemma pause_idle :
  speaking s && negb (paused s) = false -> pause w = Some (false, w).
Proof. intros Hsp. run. step Hsynth. step Hsp. reflexivity. Qed.

Lemma resume_effective :
  paused s = true ->
  resume w = Some (true, set_ui (ui w ++ [UiPlaying])
                           (set_isPaused false (set_synth (Some (synth_resume s)) w))).
Proof. intros Hp. run. step Hsynth. step Hp. step Hsynth. reflexivity. Qed.

Lemma resume_idle : paused s = false -> resume w = Some (false, w).
Proof. intros Hp. run. step Hsynth. step Hp. reflexivity. Qed.

Variables (text : jsstring) (options : Options).
Hypothesis Htext : no_text text = false.
Hypothesis Hthrows : speak_throws s = false.

(** [speak] on an engine that is silent and not paused: nothing to stop. *)
Lemma speak_from_silence :
  speaking s || paused s = false ->
  speak text options w
  = Some (true, submitted (new_utterance (cleanText text) options w) s w).
Proof.
  intros Hsp. unfold speak. rewrite Htext. unfold bind at 1, gets at 1.
  rewrite Hsynth. unfold bind at 1. rewrite (stop_inactive Hsp).
  run. step Hsynth. step Hthrows. step Hsynth. reflexivity.
Qed.

(** [speak] on an engine that speaks or is paused: stop, then submit. *)
Lemma speak_over_session :
  speaking s || paused s = true ->
  speak text options w
  = Some (true, submitted (new_utterance (cleanText text) options w)
                  (synth_cancel s) (stopped s w)).
Proof.
  intros Hsp. unfold speak. rewrite Htext. unfold bind at 1, gets at 1.
  rewrite Hsynth. unfold bind at 1. rewrite (stop_active Hsp).
  run. step Hthrows. reflexivity.
Qed.

End Playback.

(** A call of [speak] with text to read, on a host whose [speak] does not
    throw, leaves the utterance in the engine's queue and the engine
    reporting that it speaks or is paused. *)
Lemma speak_in_flight (w : World) (s : SpeechSynthesis) (text : jsstring)
    (options : Options) :
  synth w = Some s ->
  speak_throws s = false ->
  no_text text = false ->
  exists w' s',
    speak text options w = Some (true, w') /\
    synth w' = Some s' /\
    In (new_utterance (cleanText text) options w) (queue s') /\
    speaking s' || paused s' = true.
Proof.
  intros Hs Ht Hn. destruct (speaking s || paused s) eqn:Hsp.
  - rewrite (speak_over_session w s Hs text options Hn Ht Hsp).
    eexists _, _. repeat split; cbn.
    + left. reflexivity.
    + destruct (paused s); reflexivity.
  - rewrite (speak_from_silence w s Hs text options Hn Ht Hsp).
    eexists _, _. repeat split; cbn.
    + apply in_or_app. right. left. reflexivity.
    + destruct (speaking s), (paused s); reflexivity.
Qed.

(** The engine's methods keep its flags in agreement with its queue, and
    a silent engine has them so. *)
Lemma engine_methods_coherent (u : Utterance) (s : SpeechSynthesis) :
  engine_coherent s ->
  engine_coherent (synth_speak u s) /\ engine_coherent (synth_cancel s) /\
  engine_coherent (synth_pause s) /\ engine_coherent (synth_resume s).
Proof.
  unfold engine_coherent. intros H. repeat split; cbn; intros Hq.
  - destruct (speaking s), (paused s); reflexivity.
  - congruence.
  - apply orb_true_r.
  - destruct (queue s); [congruence | reflexivity].
Qed.

Lemma idle_engine_coherent (vs : list Voice) : engine_coherent (idle_engine vs).
Proof. intros H. now cbn in H. Qed.

(** On an engine whose flags agree with its queue, a call of [speak]
    that goes through leaves exactly its own utterance in the queue,
    whatever was queued before. *)
Lemma speak_single_session (w : World) (s : SpeechSynthesis) (text : jsstring)
    (options : Options) :
  synth w = Some s ->
  engine_coherent s ->
  speak_throws s = false ->
  no_text text = false ->
  exists w' s',
    speak text options w = Some (true, w') /\
    synth w' = Some s' /\
    queue s' = [new_utterance (cleanText text) options w] /\
    engine_coherent s'.
Proof.
  intros Hs Hc Ht Hn. destruct (speaking s || paused s) eqn:Hsp.
  - rewrite (speak_over_session w s Hs text options Hn Ht Hsp).
    eexists _, _. repeat split.
    apply (engine_methods_coherent _ (synth_cancel s)).
    intros H. now cbn in H.
  - rewrite (speak_from_silence w s Hs text options Hn Ht Hsp).
    assert (Hq : queue s = []).
    { destruct (queue s) eqn:Hq; [reflexivity|].
      assert (speaking s || paused s = true) by (apply Hc; rewrite Hq; discriminate).
      congruence. }
    eexists _, _. repeat split; cbn.
    + rewrite Hq. reflexivity.
    + now apply engine_methods_coherent.
Qed.

(** C1.  When [speak] is called for a text [B] while the utterance of an
    earlier call is still in the queue of the engine, whose flags agree
    with its queue, the reader first stops: the engine receives [cancel],
    which empties its queue, and only then [speak] for the utterance of
    [B], which is afterwards the one utterance in flight. *)
Theorem speak_supersedes (w : World) (s : SpeechSynthesis) (uA : Utterance)
    (B : jsstring) (options : Options) :
  synth w = Some s ->
  engine_coherent s ->
  In uA (queue s) ->
  speak_throws s = false ->
  no_text B = false ->
  exists w1 s1 w' s',
    stop w = Some (true, w1) /\ synth w1 = Some s1 /\ queue s1 = [] /\
    speak B options w = Some (true, w') /\
    synth w' = Some s' /\
    calls s' = calls s ++
      [CallCancel; CallSpeak (new_utterance (cleanText B) options w)] /\
    queue s' = [new_utterance (cleanText B) options w] /\
    utterance w' = Some (new_utterance (cleanText B) options w).
Proof.
  intros Hs Hc HA Ht Hn.
  assert (Hsp : speaking s || paused s = true).
  { apply Hc. intros Hq. rewrite Hq in HA. destruct HA. }
  rewrite (stop_active w s Hs Hsp).
  rewrite (speak_over_session w s Hs B options Hn Ht Hsp).
  eexists _, _, _, _. repeat split; cbn.
  rewrite <- app_assoc. reflexivity.
Qed.

Lemma speak_supersedes_witness :
  exists s uA,
    synth first_world = Some s /\ engine_coherent s /\ In uA (queue s) /\
    speak_throws s = false /\ no_text (js "second") = false /\
    exists w1 s1 w' s',
      stop first_world = Some (true, w1) /\ synth w1 = Some s1 /\ queue s1 = [] /\
      speak (js "second") no_options first_world = Some (true, w') /\
      synth w' = Some s' /\
      calls s' = calls s ++
        [CallCancel;
         CallSpeak (new_utterance (cleanText (js "second")) no_options first_world)] /\
      queue s' = [new_utterance (cleanText (js "second")) no_options first_world] /\
      utterance w' =
        Some (new_utterance (cleanText (js "second")) no_options first_world).
Proof.
  exists (synth_speak (new_utterance (js "first") no_options quiet_world)
            (idle_engine [])),
         (new_utterance (js "first") no_options quiet_world).
  assert (H1 : synth first_world =
    Some (synth_speak (new_utterance (js "first") no_options quiet_world)
            (idle_engine []))) by reflexivity.
  assert (H2 : engine_coherent
    (synth_speak (new_utterance (js "first") no_options quiet_world)
       (idle_engine []))) by (intros _; reflexivity).
  assert (H3 : In (new_utterance (js "first") no_options quiet_world)
    (queue (synth_speak (new_utterance (js "first") no_options quiet_world)
              (idle_engine [])))) by (left; reflexivity).
  split; [exact H1|]. split; [exact H2|]. split; [exact H3|].
  split; [reflexivity|]. split; [reflexivity|].
  exact (speak_supersedes first_world _ _ (js "second") no_options
           H1 H2 H3 eq_refl eq_refl).
Defined.

(** A call of [pause] on the reader that is reading changes what the
    interface shows, although no callback of the engine has run: the
    notification is not left to the callback. *)
Lemma pause_not_deferred_to_callback :
  ~ (forall (b : bool) (w' : World),
       pause playing_world = Some (b, w') -> ui w' = ui playing_world).
Proof.
  intros H. specialize (H true paused_world eq_refl).
  vm_compute in H. discriminate H.
Qed.

(** C2, as the code has it.  When the engine reports the precondition,
    [pause] (and likewise [resume]) invokes the engine operation and, in
    the call itself, sets [isPaused] and notifies the interface; the
    callback the engine runs afterwards applies the same update once
    more. *)
Theorem pause_resume_update_at_call (w : World) (s : SpeechSynthesis) :
  synth w = Some s ->
  (speaking s = true -> paused s = false ->
   exists w', pause w = Some (true, w') /\
     synth w' = Some (synth_pause s) /\ isPaused w' = true /\
     ui w' = ui w ++ [UiPaused]) /\
  (paused s = true ->
   exists w', resume w = Some (true, w') /\
     synth w' = Some (synth_resume s) /\ isPaused w' = false /\
     ui w' = ui w ++ [UiPlaying]) /\
  (exists w', handle EnginePaused w = Some (tt, w') /\
     synth w' = synth w /\ isPaused w' = true /\ ui w' = ui w ++ [UiPaused]) /\
  (exists w', handle EngineResumed w = Some (tt, w') /\
     synth w' = synth w /\ isPaused w' = false /\ ui w' = ui w ++ [UiPlaying]).
Proof.
  intros Hs. repeat split.
  - intros Hsp Hp. eexists. rewrite (pause_effective w s Hs).
    + repeat split.
    + rewrite Hsp, Hp. reflexivity.
  - intros Hp. eexists. rewrite (resume_effective w s Hs Hp). repeat split.
  - eexists. run. repeat split.
  - eexists. run. repeat split.
Qed.

Lemma pause_resume_update_at_call_witness :
  (exists w', pause playing_world = Some (true, w') /\
     isPaused w' = true /\ ui w' = ui playing_world ++ [UiPaused]) /\
  (exists w', resume paused_world = Some (true, w') /\
     isPaused w' = false /\ ui w' = ui paused_world ++ [UiPlaying]).
Proof.
  split.
  - destruct (pause_resume_update_at_call playing_world
                (synth_speak (new_utterance (js "Hello") no_options quiet_world)
                   (idle_engine [])) eq_refl) as [Hp _].
    destruct (Hp eq_refl eq_refl) as [w' (H1 & _ & H2 & H3)].
    exists w'. auto.
  - destruct (pause_resume_update_at_call paused_world
                (synth_pause
                   (synth_speak (new_utterance (js "Hello") no_options quiet_world)
                      (idle_engine []))) eq_refl) as (_ & Hr & _).
    destruct (Hr eq_refl) as [w' (H1 & _ & H2 & H3)].
    exists w'. auto.
Defined.

(** C5.  With the engine present, [pause] does nothing when the engine
    does not speak or is already paused, [resume] does nothing when it is
    not paused, and [stop] does nothing when it neither speaks nor is
    paused: each returns [false] without throwing and leaves the world,
    the engine and its record of calls included, as it was. *)
Theorem controls_are_noops (w : World) (s : SpeechSynthesis) :
  synth w = Some s ->
  (speaking s = false \/ paused s = true -> pause w = Some (false, w)) /\
  (paused s = false -> resume w = Some (false, w)) /\
  (speaking s = false -> paused s = false -> stop w = Some (false, w)).
Proof.
  intros Hs. repeat split.
  - intros H. apply (pause_idle w s Hs).
    destruct H as [-> | ->]; [reflexivity | apply andb_false_r].
  - apply (resume_idle w s Hs).
  - intros Hsp Hp. apply (stop_inactive w s Hs). rewrite Hsp, Hp. reflexivity.
Qed.

Lemma controls_are_noops_witness :
  pause quiet_world = Some (false, quiet_world) /\
  resume playing_world = Some (false, playing_world) /\
  stop quiet_world = Some (false, quiet_world).
Proof.
  destruct (controls_are_noops quiet_world (idle_engine []) eq_refl)
    as (Hp & _ & Hst).
  destruct (controls_are_noops playing_world
              (synth_speak (new_utterance (js "Hello") no_options quiet_world)
                 (idle_engine [])) eq_refl) as (_ & Hr & _).
  split; [|split].
  - apply Hp. left. reflexivity.
  - apply Hr. reflexivity.
  - apply Hst; reflexivity.
Defined.

(** C7.  The [network] error of the engine, delivered while the reader
    is speaking, brings it back to idle ([isReading] and [isPaused]
    cleared, the interface told [stopped]) and shows one notification:
    the network message, which is not the generic one. *)
Theorem network_error_goes_idle (w : World) :
  playback w = Speaking ->
  exists w',
    handle (Failed (js "network")) w = Some (tt, w') /\
    playback w' = Idle /\ isReading w' = false /\ isPaused w' = false /\
    ui w' = ui w ++ [UiStopped] /\
    notifications w' = notifications w ++ [((msgNetwork ++ msgRetry)%string, "error"%string)] /\
    (msgNetwork ++ msgRetry)%string <> (msgGeneric ++ msgRetry)%string /\
    synth w' = synth w.
Proof.
  intros _. eexists. run. repeat split. intros H. vm_compute in H. discriminate H.
Qed.

Lemma network_error_goes_idle_witness :
  playback playing_world = Speaking /\
  exists w',
    handle (Failed (js "network")) playing_world = Some (tt, w') /\
    playback w' = Idle /\ isReading w' = false /\ isPaused w' = false /\
    ui w' = ui playing_world ++ [UiStopped] /\
    notifications w' =
      notifications playing_world ++ [((msgNetwork ++ msgRetry)%string, "error"%string)] /\
    (msgNetwork ++ msgRetry)%string <> (msgGeneric ++ msgRetry)%string /\
    synth w' = synth playing_world.
Proof.
  split; [reflexivity | apply (network_error_goes_idle playing_world); reflexivity].
Defined.

(** C10.  An option of [speak] that is absent or falsy (zero, [NaN]) is
    passed over: the utterance handed to the engine carries the stored
    setting for that attribute instead. *)
Theorem speak_ignores_falsy_options (w : World) (s : SpeechSynthesis)
    (text : jsstring) (options : Options) :
  synth w = Some s ->
  speak_throws s = false ->
  no_text text = false ->
  exists w' s' u l,
    speak text options w = Some (true, w') /\
    utterance w' = Some u /\ synth w' = Some s' /\ queue s' = l ++ [u] /\
    (falsy_option (o_rate options) = true -> u_rate u = rate (settings w)) /\
    (falsy_option (o_pitch options) = true -> u_pitch u = pitch (settings w)) /\
    (falsy_option (o_volume options) = true -> u_volume u = volume (settings w)).
Proof.
  intros Hs Ht Hn.
  assert (Hor : forall o d, falsy_option o = true -> js_or o d = d).
  { intros [n|] d; cbn; [|reflexivity]. destruct (truthy n); [discriminate | reflexivity]. }
  destruct (speaking s || paused s) eqn:Hsp.
  - rewrite (speak_over_session w s Hs text options Hn Ht Hsp).
    exists (submitted (new_utterance (cleanText text) options w) (synth_cancel s)
              (stopped s w)),
           (synth_speak (new_utterance (cleanText text) options w) (synth_cancel s)),
           (new_utterance (cleanText text) options w), [].
    cbn. repeat (split; [reflexivity|]). repeat split; apply Hor.
  - rewrite (speak_from_silence w s Hs text options Hn Ht Hsp).
    exists (submitted (new_utterance (cleanText text) options w) s w),
           (synth_speak (new_utterance (cleanText text) options w) s),
           (new_utterance (cleanText text) options w), (queue s).
    cbn. repeat (split; [reflexivity|]). repeat split; apply Hor.
Qed.

Lemma speak_ignores_falsy_options_witness :
  falsy_option (o_rate zero_options) = true /\
  falsy_option (o_pitch zero_options) = true /\
  falsy_option (o_volume zero_options) = true /\
  exists w' u,
    speak (js "Hello") zero_options quiet_world = Some (true, w') /\
    utterance w' = Some u /\
    u_rate u = rate defaultSettings /\
    u_pitch u = pitch defaultSettings /\
    u_volume u = volume defaultSettings.
Proof.
  destruct (speak_ignores_falsy_options quiet_world (idle_engine [])
              (js "Hello") zero_options eq_refl eq_refl eq_refl)
    as (w' & s' & u & l & H1 & H2 & _ & _ & Hr & Hp & Hv).
  split; [reflexivity|]. split; [reflexivity|]. split; [reflexivity|].
  exists w', u.
  split; [exact H1|]. split; [exact H2|].
  split; [exact (Hr eq_refl)|]. split; [exact (Hp eq_refl) | exact (Hv eq_refl)].
Defined.

(** [speak] turns away a text that is empty or white space only: it
    shows the warning, returns [false] and changes nothing else. *)
Lemma speak_rejects_no_text (w : World) (text : jsstring) (options : Options) :
  no_text text = true ->
  speak text options w
  = Some (false, set_notifications (notifications w ++ [(msgNoText, "warning"%string)]) w).
Proof. intros H. unfold speak. rewrite H. reflexivity. Qed.

(** C3, at the input where the code departs from it.  The text [<b></b>]
    is cleaned to the empty string, yet [speak] on the idle reader shows
    no warning, returns [true] and submits an utterance with no text to
    the engine: the guard of [speak] looks at the text before it is
    cleaned. *)
Theorem speak_markup_only_is_submitted :
  cleanText (js "<b></b>") = [] /\
  no_text (js "<b></b>") = false /\
  playback quiet_world = Idle /\
  exists w' s' u,
    speak (js "<b></b>") no_options quiet_world = Some (true, w') /\
    notifications w' = [] /\
    synth w' = Some s' /\ queue s' = [u] /\ calls s' = [CallSpeak u] /\
    u_text u = [].
Proof.
  repeat (split; [reflexivity|]).
  eexists _, _, _.
  rewrite (speak_from_silence quiet_world (idle_engine []) eq_refl
             (js "<b></b>") no_options eq_refl eq_refl eq_refl).
  repeat (split; [reflexivity|]). reflexivity.
Qed.

(** ** Voice selection *)

Section Selection.

Variable vs : list Voice.

(** [find] returns the first element that passes the test. *)
Lemma find_first {A : Type} (f : A -> bool) (l : list A) (x : A) :
  List.find f l = Some x <->
  exists l1 l2, l = l1 ++ x :: l2 /\ f x = true /\
                (forall y, In y l1 -> f y = false).
Proof.
  induction l as [|a l IH]; cbn.
  - split; [discriminate|]. intros (l1 & l2 & H & _). destruct l1; discriminate H.
  - destruct (f a) eqn:Ha.
    + split.
      * intros [= ->]. exists [], l. repeat split; [assumption | intros y []].
      * intros ([|b l1] & l2 & H & Hx & Hl); injection H as <- ->; [reflexivity|].
        rewrite (Hl a (or_introl eq_refl)) in Ha. discriminate Ha.
    + rewrite IH. split.
      * intros (l1 & l2 & -> & Hx & Hl). exists (a :: l1), l2.
        repeat split; [assumption|]. intros y [<- | Hy]; [assumption | auto].
      * intros ([|b l1] & l2 & H & Hx & Hl); injection H as <- ->.
        -- rewrite Hx in Ha. discriminate Ha.
        -- exists l1, l2. repeat split; [assumption|]. intros y Hy. apply Hl. now right.
Qed.

Lemma find_None_iff {A : Type} (f : A -> bool) (l : list A) :
  List.find f l = None <-> forall y, In y l -> f y = false.
Proof.
  induction l as [|a l IH]; cbn.
  - split; [intros _ y [] | reflexivity].
  - destruct (f a) eqn:Ha.
    + split; [discriminate|]. intros H. rewrite (H a (or_introl eq_refl)) in Ha.
      discriminate Ha.
    + rewrite IH. split.
      * intros H y [<- | Hy]; [assumption | auto].
      * intros H y Hy. apply H. now right.
Qed.

(** The loop answers for the first entry that matches any voice. *)
Lemma select_from_Some (prefs : list jsstring) (v : Voice) :
  select_from prefs vs = Some v <->
  exists before p rest,
    prefs = before ++ p :: rest /\
    (forall q, In q before -> List.find (voice_matches q) vs = None) /\
    List.find (voice_matches p) vs = Some v.
Proof.
  induction prefs as [|p0 prefs IH]; cbn.
  - split; [discriminate|]. intros (b & p & r & H & _). destruct b; discriminate H.
  - destruct (List.find (voice_matches p0) vs) as [v0|] eqn:Hf.
    + split.
      * intros [= ->]. exists [], p0, prefs. repeat split; [intros q [] | assumption].
      * intros ([|q b] & p & r & H & Hb & Hp); injection H as <- ->.
        -- congruence.
        -- rewrite (Hb p0 (or_introl eq_refl)) in Hf. discriminate Hf.
    + rewrite IH. split.
      * intros (b & p & r & -> & Hb & Hp). exists (p0 :: b), p, r.
        repeat split; [|assumption]. intros q [<- | Hq]; [assumption | auto].
      * intros ([|q b] & p & r & H & Hb & Hp); injection H as <- ->.
        -- congruence.
        -- exists b, p, r. repeat split; [|assumption]. intros q' Hq'. apply Hb. now right.
Qed.

Lemma select_from_app (p1 p2 : list jsstring) :
  select_from (p1 ++ p2) vs =
  match select_from p1 vs with
  | Some v => Some v
  | None => select_from p2 vs
  end.
Proof.
  induction p1 as [|p p1 IH]; cbn; [reflexivity|].
  destruct (List.find (voice_matches p) vs); [reflexivity | exact IH].
Qed.

(** What the loop returns is a voice of the catalog that matches one of
    the entries. *)
Lemma select_from_matches (prefs : list jsstring) (v : Voice) :
  select_from prefs vs = Some v ->
  In v vs /\ exists p, In p prefs /\ voice_matches p v = true.
Proof.
  intros H. apply select_from_Some in H as (b & p & r & -> & _ & Hf).
  apply find_some in Hf as [Hin Hm]. split; [assumption|].
  exists p. split; [|assumption]. apply in_or_app. right. now left.
Qed.

(** If some voice matches some entry, the loop returns a voice. *)
Lemma select_from_finds (prefs : list jsstring) (p : jsstring) (x : Voice) :
  In p prefs -> In x vs -> voice_matches p x = true ->
  exists v, select_from prefs vs = Some v.
Proof.
  intros Hp Hx Hm. destruct (select_from prefs vs) as [v|] eqn:Hs; [eauto|].
  exfalso. revert Hp Hs. induction prefs as [|q prefs IH]; cbn; [intros []|].
  intros [-> | Hp].
  - destruct (List.find (voice_matches p) vs) eqn:Hf; [discriminate|].
    intros _. rewrite find_None_iff in Hf. rewrite (Hf x Hx) in Hm. discriminate Hm.
  - destruct (List.find (voice_matches q) vs); [discriminate | auto].
Qed.

End Selection.

Lemma includes_refl (s : jsstring) : includes s s = true.
Proof.
  assert (H : forall t : jsstring, starts_with t t = true).
  { induction t as [|c t IH]; cbn; [reflexivity|]. now rewrite N.eqb_refl. }
  destruct s; cbn; [reflexivity|]. rewrite N.eqb_refl. cbn.
  now rewrite H.
Qed.

(** In this catalog a voice tagged [hi-IN] and one tagged [en-US] are on
    offer, and the one selected is tagged [en-US]: its name contains the
    Hindi entry that is tried before the tag [hi-IN]. *)
Lemma hindi_name_beats_hindi_tag :
  In lekha mixed_catalog /\ lang lekha = js "hi-IN" /\
  In hindi_named mixed_catalog /\ lang hindi_named = js "en-US" /\
  selectPreferred mixed_catalog = Some hindi_named /\
  lang hindi_named <> js "hi-IN".
Proof.
  split; [right; left; reflexivity|]. split; [reflexivity|].
  split; [left; reflexivity|]. split; [reflexivity|].
  split; [vm_compute; reflexivity|]. vm_compute. discriminate.
Qed.

(** C6, as the code has it.  [selectPreferred] goes through the
    preference list in order and returns, for the first entry that any
    voice of the catalog matches by name or tag, the first such voice in
    catalog order.  With a voice tagged [hi-IN] in the catalog, whatever
    else it holds and in whatever order, the voice selected matches one
    of the Hindi entries, which are tried before every English one; it is
    tagged [hi-IN] provided no voice with another tag matches a Hindi
    entry. *)
Theorem selectPreferred_first_match (vs : list Voice) :
  (forall v,
     selectPreferred vs = Some v <->
     exists before p rest l1 l2,
       preferredVoices = before ++ p :: rest /\
       (forall q x, In q before -> In x vs -> voice_matches q x = false) /\
       vs = l1 ++ v :: l2 /\ voice_matches p v = true /\
       (forall x, In x l1 -> voice_matches p x = false)) /\
  (forall h,
     In h vs -> lang h = js "hi-IN" ->
     exists v,
       selectPreferred vs = Some v /\ In v vs /\
       (exists p, In p hindiPreferred /\ voice_matches p v = true) /\
       ((forall x p, In x vs -> In p hindiPreferred ->
                     voice_matches p x = true -> lang x = js "hi-IN") ->
        lang v = js "hi-IN")).
Proof.
  split.
  - intros v. unfold selectPreferred. rewrite select_from_Some. split.
    + intros (b & p & r & Hp & Hb & Hf). apply find_first in Hf as (l1 & l2 & H1 & H2 & H3).
      exists b, p, r, l1, l2. repeat split; try assumption.
      intros q x Hq Hx. specialize (Hb q Hq). rewrite find_None_iff in Hb. auto.
    + intros (b & p & r & l1 & l2 & Hp & Hb & H1 & H2 & H3).
      exists b, p, r. repeat split; [assumption | |].
      * intros q Hq. apply find_None_iff. intros y Hy. eauto.
      * apply find_first. eauto.
  - intros h Hh Hl.
    assert (Hm : voice_matches (js "hi-IN") h = true).
    { unfold voice_matches. rewrite Hl, includes_refl. apply orb_true_r. }
    destruct (select_from_finds vs hindiPreferred (js "hi-IN") h) as [v Hv];
      [cbn; tauto | assumption | assumption |].
    exists v. unfold selectPreferred, preferredVoices.
    rewrite select_from_app, Hv.
    destruct (select_from_matches vs _ _ Hv) as [Hin (p & Hp & Hpm)].
    repeat split; [assumption | eauto |]. intros H. eauto.
Qed.

Lemma selectPreferred_first_match_witness :
  In lekha plain_catalog /\ lang lekha = js "hi-IN" /\
  In samantha plain_catalog /\ lang samantha = js "en-US" /\
  exists v,
    selectPreferred plain_catalog = Some v /\ In v plain_catalog /\
    (exists p, In p hindiPreferred /\ voice_matches p v = true).
Proof.
  assert (H1 : In lekha plain_catalog) by (right; left; reflexivity).
  assert (H2 : In samantha plain_catalog) by (left; reflexivity).
  destruct (selectPreferred_first_match plain_catalog) as [_ H].
  destruct (H lekha H1 eq_refl) as (v & Hv & Hin & Hp & _).
  split; [exact H1|]. split; [reflexivity|]. split; [exact H2|].
  split; [reflexivity|]. exists v. auto.
Defined.

(** A key that is an array index is not the empty string. *)
Lemma array_index_nonempty (key : jsstring) (n : nat) :
  array_index key = Some n -> exists c rest, key = c :: rest.
Proof. destruct key as [|c rest]; [discriminate | eauto]. Qed.

(** The index a key stands for is read off its digits; a key that is an
    index is neither [length] nor the name of an inherited property. *)
Lemma property_at_index (vs : list Voice) (key : jsstring) (n : nat) :
  array_index key = Some n -> property_at vs key = AVoice <$> vs !! n.
Proof. intros H. unfold property_at. now rewrite H. Qed.

Lemma property_at_voice (vs : list Voice) (key : jsstring) (v : Voice) :
  voice_at vs key = Some v -> property_at vs key = Some (AVoice v).
Proof.
  unfold voice_at, property_at. destruct (array_index key); [|discriminate].
  now intros ->.
Qed.

(** What [initializeVoices] leaves behind. *)
Lemma initializeVoices_result (w : World) (s : SpeechSynthesis) :
  synth w = Some s ->
  initializeVoices w
  = Some (tt,
      match getVoices s with
      | [] => set_voices [] w
      | first :: others =>
          let vs := first :: others in
          let computed :=
            if holds (selectedVoice w) then selectedVoice w
            else Some (AVoice match selectPreferred vs with
                              | Some v => v
                              | None => first
                              end) in
          let found :=
            match localStorage w !! "selectedVoiceIndex"%string with
            | Some (c :: key) => property_at vs (c :: key)
            | _ => None
            end in
          set_selectedVoice (if holds found then found else computed)
            (set_voices vs w)
      end).
Proof.
  intros Hs. unfold initializeVoices, the_synth, bind, modify, gets, ret.
  cbn -[lookup selectPreferred property_at holds]. rewrite Hs.
  cbn -[lookup selectPreferred property_at holds].
  destruct (getVoices s) as [|first others]; [reflexivity|].
  cbn -[lookup selectPreferred property_at holds].
  destruct (holds (selectedVoice w)) eqn:Hsel.
  - cbn -[lookup selectPreferred property_at holds]. rewrite Hsel.
    cbn -[lookup selectPreferred property_at holds].
    destruct (localStorage w !! "selectedVoiceIndex"%string) as [[|c key]|];
      try (cbn; now destruct w).
    destruct (holds (property_at (first :: others) (c :: key))); [reflexivity|].
    cbn. now destruct w.
  - destruct (selectPreferred (first :: others)) as [vp|];
      cbn -[lookup selectPreferred property_at]; rewrite ?Hsel;
      cbn -[lookup selectPreferred property_at];
      destruct (localStorage w !! "selectedVoiceIndex"%string) as [[|c key]|];
      try reflexivity;
      destruct (holds (property_at (first :: others) (c :: key))); reflexivity.
Qed.

(** The reader of [shrunk_world] had the voice at the saved index 2
    selected while the host offered three voices.  With that voice
    withdrawn the index is out of range, and [initializeVoices] keeps the
    withdrawn voice: not a voice of the catalog, so neither the preferred
    voice nor the first one.  And a saved key need not be an index to
    override the choice: with [length] saved, the reader of
    [length_world] ends up with the number 2 for a voice. *)
Lemma stale_voice_survives_shrunk_catalog :
  (selectedVoice shrunk_world = Some (AVoice lekha) /\
   synth shrunk_world = Some (idle_engine shrunk_catalog) /\
   localStorage shrunk_world !! "selectedVoiceIndex"%string = Some (js "2") /\
   shrunk_catalog !! 2%nat = None /\
   exists w',
     initializeVoices shrunk_world = Some (tt, w') /\
     voices w' = shrunk_catalog /\
     selectedVoice w' = Some (AVoice lekha) /\
     ~ In lekha shrunk_catalog /\
     selectPreferred shrunk_catalog = Some heera /\
     shrunk_catalog !! 0%nat = Some samantha) /\
  (localStorage length_world !! "selectedVoiceIndex"%string = Some (js "length") /\
   array_index (js "length") = None /\
   exists w',
     initializeVoices length_world = Some (tt, w') /\
     selectedVoice w' = Some (ALength 2)).
Proof.
  split.
  - split; [vm_compute; reflexivity|]. split; [reflexivity|].
    split; [vm_compute; reflexivity|]. split; [reflexivity|].
    eexists. split; [vm_compute; reflexivity|].
    split; [reflexivity|]. split; [reflexivity|].
    split; [|split; [vm_compute; reflexivity | reflexivity]].
    intros [H | [H | []]]; discriminate H.
  - split; [vm_compute; reflexivity|]. split; [reflexivity|].
    eexists. split; [vm_compute; reflexivity|]. reflexivity.
Qed.

(** C9, as the code has it.  With a non-empty catalog [initializeVoices]
    does not throw and leaves something selected, whatever is saved
    under [selectedVoiceIndex].  A saved index within the catalog selects
    the voice at that index.  When nothing is saved, or the empty string,
    or an index beyond the catalog, or a word that is no property of the
    array, the choice computed before stays: what the reader held
    already, be it a voice the host no longer offers, or else the
    preferred voice, or else the first voice of the catalog.  A saved
    [length], or the name of an inherited property, makes the reader hold
    that property instead of a voice. *)
Theorem saved_voice_index_override (w : World) (s : SpeechSynthesis)
    (first : Voice) (others : list Voice) (saved : option jsstring) :
  synth w = Some s ->
  getVoices s = first :: others ->
  localStorage w !! "selectedVoiceIndex"%string = saved ->
  let vs := first :: others in
  let computed :=
    if holds (selectedVoice w) then selectedVoice w
    else Some (AVoice match selectPreferred vs with
                      | Some v => v
                      | None => first
                      end) in
  exists w',
    initializeVoices w = Some (tt, w') /\
    voices w' = vs /\
    holds (selectedVoice w') = true /\
    (forall key n v,
       saved = Some key -> array_index key = Some n -> vs !! n = Some v ->
       selectedVoice w' = Some (AVoice v)) /\
    (forall key n,
       saved = Some key -> array_index key = Some n ->
       (List.length vs <= n)%nat ->
       selectedVoice w' = computed) /\
    (saved = None \/ saved = Some [] -> selectedVoice w' = computed) /\
    (forall key,
       saved = Some key -> array_index key = None -> key <> [] ->
       selectedVoice w' =
         if str_eqb key (js "length") then Some (ALength (List.length vs))
         else if inherited key then Some (AnInherited key)
         else computed).
Proof.
  intros Hs Hv Hk vs computed.
  rewrite (initializeVoices_result w s Hs), Hv, Hk. fold vs. fold computed.
  assert (Hc : holds computed = true).
  { unfold computed. destruct (holds (selectedVoice w)) eqn:E; [exact E | reflexivity]. }
  eexists. split; [reflexivity|]. split; [reflexivity|].
  cbn [selectedVoice set_selectedVoice].
  split.
  { destruct saved as [[|c key]|]; cbn -[property_at]; try exact Hc.
    destruct (holds (property_at vs (c :: key))) eqn:E; [exact E | exact Hc]. }
  split.
  { intros key n v -> Hi Hn. destruct (array_index_nonempty key n Hi) as (c & rest & ->).
    rewrite (property_at_index vs _ n Hi), Hn. reflexivity. }
  split.
  { intros key n -> Hi Hn. destruct (array_index_nonempty key n Hi) as (c & rest & ->).
    rewrite (property_at_index vs _ n Hi), (lookup_ge_None_2 vs n Hn). reflexivity. }
  split.
  { intros [-> | ->]; reflexivity. }
  intros key -> Hi Hne. destruct key as [|c key]; [contradiction|].
  unfold property_at. rewrite Hi.
  destruct (str_eqb (c :: key) (js "length")); [reflexivity|].
  destruct (inherited (c :: key)); reflexivity.
Qed.

Lemma saved_voice_index_override_witness :
  synth shrunk_world = Some (idle_engine shrunk_catalog) /\
  localStorage shrunk_world !! "selectedVoiceIndex"%string = Some (js "2") /\
  exists w',
    initializeVoices shrunk_world = Some (tt, w') /\
    voices w' = shrunk_catalog /\
    holds (selectedVoice w') = true /\
    selectedVoice w' = selectedVoice shrunk_world.
Proof.
  assert (H3 : localStorage shrunk_world !! "selectedVoiceIndex"%string = Some (js "2"))
    by (vm_compute; reflexivity).
  destruct (saved_voice_index_override shrunk_world (idle_engine shrunk_catalog)
              samantha [heera] (Some (js "2")) eq_refl eq_refl H3)
    as (w' & H1 & H2 & Hh & _ & H & _).
  split; [reflexivity|]. split; [exact H3|].
  exists w'. split; [exact H1|]. split; [exact H2|]. split; [exact Hh|].
  rewrite (H (js "2") 2%nat eq_refl eq_refl); [reflexivity | cbn; lia].
Defined.

(** ** Saved settings *)

Example defaultSettings_values :
  defaultSettings
  = {| rate := JFin (4 # 5)%Q; pitch := JFin 1%Q; volume := JFin (9 # 10)%Q |}.
Proof. reflexivity. Qed.

Example parseFloat_samples :
  parseFloat (js "0.8") = JFin (4 # 5)%Q /\
  parseFloat (js "  1.5px") = JFin (3 # 2)%Q /\
  parseFloat (js "-2.5e1") = JFin (-25 # 1)%Q /\
  parseFloat (js ".5") = JFin (1 # 2)%Q /\
  parseFloat (js "-Infinity") = JInf true /\
  parseFloat (js "abc") = JNaN /\
  parseFloat (js ".") = JNaN /\
  parseFloat [] = JNaN.
Proof. vm_compute. repeat split. Qed.

(** A string that starts with no number is read as [NaN]. *)
Lemma parseFloat_NaN (s : jsstring) :
  starts_no_number s = true -> parseFloat s = JNaN.
Proof.
  unfold starts_no_number, parseFloat.
  destruct (trim_start s) as [|c r]; [reflexivity|].
  destruct (digit_of c) eqn:Hd; [discriminate|].
  intros H. apply negb_true_iff in H.
  apply orb_false_iff in H as [H HI].
  apply orb_false_iff in H as [H Hpoint].
  apply orb_false_iff in H as [Hplus Hminus].
  unfold take_sign. rewrite Hminus, Hplus.
  assert (Hinf : starts_with (js "Infinity") (c :: r) = false).
  { change (starts_with (js "Infinity") (c :: r))
      with ((73 =? c) && starts_with (js "nfinity") r).
    rewrite N.eqb_sym, HI. reflexivity. }
  rewrite Hinf. cbn [take_digits]. rewrite Hd, Hpoint. reflexivity.
Qed.

(** The saved rate [abc] is neither dropped for the default nor a number:
    it is loaded as [NaN]. *)
Lemma load_surfaces_unparseable_rate :
  malformed_store !! "voiceRate"%string = Some (js "abc") /\
  exists p,
    load malformed_store = Some p /\
    pref_rate p = JNaN /\ pref_rate p <> rate defaultSettings.
Proof.
  split; [vm_compute; reflexivity|].
  eexists. split; [vm_compute; reflexivity|]. split; [reflexivity | discriminate].
Qed.

(** C8, as the code has it.  Loading never fails.  Each of rate, pitch
    and volume is the default (0.8, 1 and 0.9) when nothing or the empty
    string is stored for it, and otherwise what [parseFloat] makes of the
    stored string, which is [NaN], not the default, when the string
    starts with no number.  Auto-read is on exactly when the stored flag
    is the string [true]. *)
Theorem load_defaults_for_missing (store : gmap string jsstring) :
  exists p,
    load store = Some p /\
    pref_rate p = match store !! "voiceRate"%string with
                  | None | Some [] => rate defaultSettings
                  | Some saved => parseFloat saved
                  end /\
    pref_pitch p = match store !! "voicePitch"%string with
                   | None | Some [] => pitch defaultSettings
                   | Some saved => parseFloat saved
                   end /\
    pref_volume p = match store !! "voiceVolume"%string with
                    | None | Some [] => volume defaultSettings
                    | Some saved => parseFloat saved
                    end /\
    (forall c saved,
       store !! "voiceRate"%string = Some (c :: saved) ->
       starts_no_number (c :: saved) = true -> pref_rate p = JNaN) /\
    (forall c saved,
       store !! "voicePitch"%string = Some (c :: saved) ->
       starts_no_number (c :: saved) = true -> pref_pitch p = JNaN) /\
    (forall c saved,
       store !! "voiceVolume"%string = Some (c :: saved) ->
       starts_no_number (c :: saved) = true -> pref_volume p = JNaN) /\
    (pref_autoRead p = true <-> store !! "autoReadSummary"%string = Some (js "true")).
Proof.
  eexists. split; [reflexivity|]. cbn.
  split; [destruct (store !! "voiceRate"%string) as [[|? ?]|]; reflexivity|].
  split; [destruct (store !! "voicePitch"%string) as [[|? ?]|]; reflexivity|].
  split; [destruct (store !! "voiceVolume"%string) as [[|? ?]|]; reflexivity|].
  split; [intros c saved -> H; cbn - [parseFloat]; now apply parseFloat_NaN|].
  split; [intros c saved -> H; cbn - [parseFloat]; now apply parseFloat_NaN|].
  split; [intros c saved -> H; cbn - [parseFloat]; now apply parseFloat_NaN|].
  unfold loadAutoReadSetting.
  destruct (store !! "autoReadSummary"%string) as [v|]; [|split; discriminate].
  assert (Heq : forall a b : jsstring, str_eqb a b = true <-> a = b).
  { induction a as [|x a IH]; intros [|y b]; cbn; try (split; [discriminate | discriminate]);
      [split; reflexivity|].
    rewrite andb_true_iff, N.eqb_eq, IH. split; [intros [-> ->]; reflexivity | intros [= -> ->]; auto]. }
  rewrite Heq. split; [intros ->; reflexivity | intros [= ->]; reflexivity].
Qed.

Lemma load_defaults_for_missing_witness :
  malformed_store !! "voiceRate"%string = Some (js "abc") /\
  starts_no_number (js "abc") = true /\
  exists p,
    load malformed_store = Some p /\
    pref_rate p = JNaN /\
    pref_pitch p = pitch defaultSettings /\
    pref_volume p = volume defaultSettings /\
    pref_autoRead p = false.
Proof.
  assert (H0 : malformed_store !! "voiceRate"%string = Some (js "abc"))
    by (vm_compute; reflexivity).
  destruct (load_defaults_for_missing malformed_store)
    as (p & H1 & _ & H3 & H4 & H5 & _ & _ & H6).
  split; [exact H0|]. split; [reflexivity|].
  exists p. split; [exact H1|].
  split; [exact (H5 _ _ H0 eq_refl)|].
  split; [rewrite H3; vm_compute; reflexivity|].
  split; [rewrite H4; vm_compute; reflexivity|].
  destruct (pref_autoRead p); [|reflexivity].
  destruct H6 as [H6 _]. specialize (H6 eq_refl). vm_compute in H6. discriminate H6.
Defined.


(** * Further properties *)

(** ** The text cleaner, applied again *)

Section Trimming.

Lemma trim_start_idem (s : jsstring) : trim_start (trim_start s) = trim_start s.
Proof.
  induction s as [|c s IH]; cbn; [reflexivity|].
  destruct (is_space c) eqn:Hc; [exact IH | cbn; now rewrite Hc].
Qed.

Lemma trim_start_head (s : jsstring) :
  trim_start s = [] \/ exists c r, trim_start s = c :: r /\ is_space c = false.
Proof.
  induction s as [|c s IH]; cbn; [now left|].
  destruct (is_space c) eqn:Hc; [exact IH | right; eauto].
Qed.

Lemma trim_start_keep (c : N) (r : jsstring) :
  is_space c = false -> trim_start (c :: r) = c :: r.
Proof. intros H. cbn. now rewrite H. Qed.

(** What [trim_start] removes is a prefix of white space. *)
Lemma trim_start_split (s : jsstring) :
  exists p, s = p ++ trim_start s /\ Forall (fun c => is_space c = true) p.
Proof.
  induction s as [|c s (p & Hp & Hf)]; cbn; [exists []; split; [reflexivity | constructor]|].
  destruct (is_space c) eqn:Hc.
  - exists (c :: p). split; [cbn; congruence | now constructor].
  - exists []. split; [reflexivity | constructor].
Qed.

Lemma trim_start_nil (s : jsstring) :
  trim_start s = [] <-> Forall (fun c => is_space c = true) s.
Proof.
  induction s as [|c s IH]; cbn; [split; [constructor | reflexivity]|].
  destruct (is_space c) eqn:Hc.
  - rewrite IH. split; [now constructor | now inversion 1].
  - split; [discriminate | inversion 1; congruence].
Qed.

Lemma trimmed_trim (s : jsstring) : trimmed s -> trim s = s.
Proof.
  intros [H1 H2]. unfold trim, trim_end. rewrite H1, H2. apply rev_involutive.
Qed.

Lemma trim_trimmed (s : jsstring) : trimmed (trim s).
Proof.
  unfold trimmed, trim, trim_end. set (u := trim_start s).
  set (w := trim_start (rev u)). split.
  - destruct (trim_start_split (rev u)) as (p & Hp & _). fold w in Hp.
    destruct (rev w) as [|c r] eqn:Hw; [reflexivity|].
    apply (f_equal (@rev N)) in Hp. rewrite rev_involutive, rev_app_distr, Hw in Hp.
    destruct (trim_start_head s) as [Hu | (c' & r' & Hu & Hc)]; fold u in Hu.
    + rewrite Hu in Hp. discriminate Hp.
    + rewrite Hu in Hp. injection Hp as -> _. now apply trim_start_keep.
  - rewrite rev_involutive. apply trim_start_idem.
Qed.

(** A trimmed string that is not empty begins and ends with something
    that is not white space. *)
Lemma trimmed_ends (s : jsstring) :
  trimmed s -> s <> [] ->
  (exists c r, s = c :: r /\ is_space c = false) /\
  (exists r c, s = r ++ [c] /\ is_space c = false).
Proof.
  intros [H1 H2] Hne. split.
  - destruct (trim_start_head s) as [H | (c & r & H & Hc)]; rewrite H1 in H;
      [contradiction | eauto].
  - destruct (trim_start_head (rev s)) as [H | (c & r & H & Hc)]; rewrite H2 in H.
    + apply (f_equal (@rev N)) in H. rewrite rev_involutive in H. contradiction.
    + exists (rev r), c. split; [|assumption].
      apply (f_equal (@rev N)) in H. now rewrite rev_involutive in H.
Qed.

Lemma ends_trimmed (c d : N) (m : jsstring) :
  is_space c = false -> is_space d = false ->
  trimmed [c] /\ trimmed (c :: m ++ [d]).
Proof.
  intros Hc Hd. repeat split; cbn; rewrite ?Hc; try reflexivity.
  rewrite rev_app_distr. cbn. now rewrite Hd.
Qed.

End Trimming.

Section Collapsing.

Lemma collapse_from_idem (s : jsstring) :
  collapse_from false (collapse_from false s) = collapse_from false s /\
  collapse_from true (collapse_from true s) = collapse_from true s /\
  collapse_from false (collapse_from true s) = collapse_from true s.
Proof.
  induction s as [|c s (IHa & IHb & IHc)]; cbn; [auto|].
  destruct (is_space c) eqn:Hc; cbn.
  - repeat split; [|assumption|assumption].
    change (is_space SPACE) with true. cbn. now rewrite IHb.
  - rewrite Hc. now rewrite IHa.
Qed.

Lemma collapse_from_Forall (P : N -> Prop) (b : bool) (s : jsstring) :
  P SPACE -> Forall P s -> Forall P (collapse_from b s).
Proof.
  intros Hsp H. revert b. induction H as [|c s Hc Hs IH]; intros b; cbn; [constructor|].
  destruct (is_space c); [destruct b; [apply IH | constructor; [assumption | apply IH]]|].
  constructor; [assumption | apply IH].
Qed.

Lemma collapse_from_snoc (b : bool) (s : jsstring) (d : N) :
  is_space d = false -> collapse_from b (s ++ [d]) = collapse_from b s ++ [d].
Proof.
  intros Hd. revert b. induction s as [|c s IH]; intros b; cbn.
  - now rewrite Hd.
  - destruct (is_space c); [destruct b|]; cbn; now rewrite IH.
Qed.

Lemma collapse_trimmed (s : jsstring) :
  trimmed s -> trimmed (collapse_spaces s).
Proof.
  intros Ht. unfold collapse_spaces. destruct s as [|c s0]; [exact Ht|].
  destruct (trimmed_ends _ Ht) as [(c1 & r & Hs & Hc) (r' & d & Hs' & Hd)];
    [discriminate|].
  injection Hs as <- <-. destruct r' as [|c2 m]; cbn in Hs'.
  - injection Hs' as -> ->. cbn. rewrite Hc. now apply (ends_trimmed d d []).
  - injection Hs' as <- ->. cbn. rewrite Hc. rewrite collapse_from_snoc by assumption.
    now apply ends_trimmed.
Qed.

Lemma collapse_all_space (s : jsstring) :
  Forall (fun c => is_space c = true) s ->
  collapse_from true s = [] /\
  collapse_from false s = match s with [] => [] | _ :: _ => [SPACE] end.
Proof.
  induction 1 as [|c s Hc Hs [IH1 IH2]]; cbn; [auto|].
  rewrite Hc. now rewrite IH1.
Qed.

End Collapsing.

Section Untouched.

(** The replacements that look for markup leave a text without [<]
    and without [&] as it is. *)
Lemma strip_tags_without_lt (s : jsstring) :
  Forall (fun c => c <> LT) s -> strip_tags s = s.
Proof.
  unfold strip_tags. induction 1 as [|c s Hc Hs IH]; cbn; [reflexivity|].
  apply N.eqb_neq in Hc. now rewrite Hc, IH.
Qed.

Lemma replace_all_without_head (h : N) (pt rep s : jsstring) :
  Forall (fun c => c <> h) s -> replace_all (h :: pt) rep s = s.
Proof.
  unfold replace_all. induction 1 as [|c s Hc Hs IH]; cbn; [reflexivity|].
  apply not_eq_sym, N.eqb_neq in Hc. rewrite Hc. cbn. now rewrite IH.
Qed.

Lemma filter_all {A : Type} (f : A -> bool) (l : list A) :
  Forall (fun x => f x = true) l -> List.filter f l = l.
Proof. induction 1 as [|x l Hx Hl IH]; cbn; [reflexivity|]. now rewrite Hx, IH. Qed.

(** The markup stages of [cleanText] change nothing in a text that has
    neither [<] nor [&]. *)
Lemma cleanText_plain (s : jsstring) :
  Forall (fun c => c <> LT /\ c <> 38) s ->
  cleanText s = trim (drop_disallowed (collapse_spaces s)).
Proof.
  intros H. unfold cleanText.
  rewrite strip_tags_without_lt by (eapply Forall_impl; [exact H|]; cbn; tauto).
  assert (Hamp : Forall (fun c => c <> 38) s)
    by (eapply Forall_impl; [exact H|]; cbn; tauto).
  change (js "&nbsp;") with (38 :: js "nbsp;").
  change (js "&amp;") with (38 :: js "amp;").
  change (js "&lt;") with (38 :: js "lt;").
  change (js "&gt;") with (38 :: js "gt;").
  change (js "&quot;") with (38 :: js "quot;").
  change (js "&#39;") with (38 :: js "#39;").
  do 6 rewrite (replace_all_without_head 38 _ _ s Hamp). reflexivity.
Qed.

End Untouched.

(** What [cleanText] returns has only allowed code units and no white
    space at either end. *)
Lemma cleanText_shape (t : jsstring) :
  Forall (fun c => allowed c = true) (cleanText t) /\ trimmed (cleanText t).
Proof.
  split; [|apply trim_trimmed].
  unfold cleanText. apply trim_Forall. unfold drop_disallowed, collapse_spaces.
  match goal with |- context [collapse_from false ?x] => generalize x end.
  intros x. pose proof (collapse_from_tidy false x) as Hx.
  induction Hx as [|c l Hc Hl IH]; cbn; [constructor|].
  destruct (kept c) eqn:Hk; [|exact IH].
  constructor; [now apply kept_tidy_allowed | exact IH].
Qed.

Lemma allowed_kept (c : N) : allowed c = true -> kept c = true.
Proof.
  unfold allowed, kept. intros H.
  destruct (is_word c); [reflexivity|].
  destruct (is_devanagari c); [now rewrite orb_true_r|].
  destruct (is_punct c); [now rewrite orb_true_r|]. cbn in H.
  apply N.eqb_eq in H as ->. reflexivity.
Qed.

(** On a text of allowed code units without white space at either end,
    [cleanText] only collapses the runs of spaces. *)
Lemma cleanText_of_clean (y : jsstring) :
  Forall (fun c => allowed c = true) y -> trimmed y ->
  cleanText y = collapse_spaces y.
Proof.
  intros Ha Ht. rewrite cleanText_plain.
  - unfold drop_disallowed. rewrite filter_all.
    + apply trimmed_trim, collapse_trimmed, Ht.
    + apply collapse_from_Forall; [reflexivity|].
      eapply Forall_impl; [exact Ha|]. apply allowed_kept.
  - eapply Forall_impl; [exact Ha|]. cbn. intros c Hc.
    split; intros ->; vm_compute in Hc; discriminate Hc.
Qed.

(** X1.  A text that [speak] turns away as empty or blank has indeed
    nothing to read: it is cleaned to the empty string. *)
Theorem no_text_cleans_to_empty (text : jsstring) :
  no_text text = true -> cleanText text = [].
Proof.
  intros H.
  assert (Hsp : Forall (fun c => is_space c = true) text).
  { unfold no_text in H. destruct text as [|c t]; [constructor|].
    destruct (trim (c :: t)) eqn:Htr; [|discriminate].
    unfold trim, trim_end in Htr.
    apply (f_equal (@rev N)) in Htr. rewrite rev_involutive in Htr.
    change (rev []) with (@nil N) in Htr.
    apply trim_start_nil in Htr.
    destruct (trim_start_head (c :: t)) as [E | (d & r & E & Hd)].
    - now apply trim_start_nil.
    - rewrite E in Htr. apply Forall_rev in Htr. rewrite rev_involutive in Htr.
      inversion Htr; congruence. }
  rewrite cleanText_plain.
  - destruct (collapse_all_space text Hsp) as [_ Hc]. unfold collapse_spaces.
    rewrite Hc. destruct text; reflexivity.
  - eapply Forall_impl; [exact Hsp|]. cbn. intros c Hc.
    split; intros ->; vm_compute in Hc; discriminate Hc.
Qed.

Lemma no_text_cleans_to_empty_witness :
  no_text (js " ") = true /\ cleanText (js " ") = [].
Proof.
  split; [reflexivity | apply (no_text_cleans_to_empty (js " ")); reflexivity].
Defined.

Example cleanText_not_idempotent :
  cleanText (js "a & b") = js "a  b" /\ cleanText (js "a  b") = js "a b".
Proof. split; reflexivity. Qed.

(** X2.  Cleaning a cleaned text once more only collapses the runs of
    spaces that dropping characters left behind, and never empties it:
    what a caller found worth reading is still there after [speak] has
    cleaned it again. *)
Theorem cleanText_again (t : jsstring) :
  cleanText (cleanText t) = collapse_spaces (cleanText t) /\
  (cleanText t = [] <-> cleanText (cleanText t) = []).
Proof.
  destruct (cleanText_shape t) as [Ha Ht].
  assert (E : cleanText (cleanText t) = collapse_spaces (cleanText t))
    by now apply cleanText_of_clean.
  split; [exact E|]. rewrite E. split; [intros ->; reflexivity|].
  intros Hc. destruct (cleanText t) as [|c r] eqn:Hy; [reflexivity|].
  destruct (trimmed_ends _ Ht) as [(c' & r' & Hs & Hsp) _]; [discriminate|].
  injection Hs as <- <-. unfold collapse_spaces in Hc. cbn in Hc.
  rewrite Hsp in Hc. discriminate Hc.
Qed.

(** X3.  From the second application on, [cleanText] changes nothing
    any more. *)
Theorem cleanText_stable (t : jsstring) :
  cleanText (cleanText (cleanText t)) = cleanText (cleanText t).
Proof.
  destruct (cleanText_shape t) as [Ha Ht].
  destruct (cleanText_shape (cleanText t)) as [Ha' Ht'].
  rewrite (cleanText_of_clean (cleanText (cleanText t)) Ha' Ht').
  rewrite (cleanText_of_clean (cleanText t) Ha Ht).
  unfold collapse_spaces. apply collapse_from_idem.
Qed.

(** ** Playback, further *)

Lemma str_eqb_eq (a b : jsstring) : str_eqb a b = true <-> a = b.
Proof.
  revert b. induction a as [|x a IH]; intros [|y b]; cbn;
    try (split; discriminate); [split; reflexivity|].
  rewrite andb_true_iff, N.eqb_eq, IH.
  split; [intros [-> ->]; reflexivity | intros [= -> ->]; auto].
Qed.

Lemma str_eqb_neq (a b : jsstring) : a <> b -> str_eqb a b = false.
Proof.
  intros H. destruct (str_eqb a b) eqn:E; [|reflexivity].
  apply str_eqb_eq in E. contradiction.
Qed.

(** X5.  Pausing a reader whose engine speaks and resuming it right away
    brings the engine and the flag [isPaused] back: the queue is as it
    was, the engine is not paused, and the only traces are the two calls
    on the engine and the two notifications of the interface. *)
Theorem pause_then_resume (w : World) (s : SpeechSynthesis) :
  synth w = Some s ->
  speaking s = true ->
  paused s = false ->
  exists w1 w2 s2,
    pause w = Some (true, w1) /\ resume w1 = Some (true, w2) /\
    synth w2 = Some s2 /\
    queue s2 = queue s /\ speaking s2 = true /\ paused s2 = false /\
    calls s2 = calls s ++ [CallPause; CallResume] /\
    isPaused w2 = false /\ isReading w2 = isReading w /\
    utterance w2 = utterance w /\ selectedVoice w2 = selectedVoice w /\
    settings w2 = settings w /\ notifications w2 = notifications w /\
    ui w2 = ui w ++ [UiPaused; UiPlaying].
Proof.
  intros Hs Hsp Hp.
  assert (Hg : speaking s && negb (paused s) = true) by now rewrite Hsp, Hp.
  rewrite (pause_effective w s Hs Hg).
  eexists _, _, (synth_resume (synth_pause s)). split; [reflexivity|].
  split; [apply (resume_effective _ (synth_pause s)); reflexivity|].
  cbn. rewrite Hsp, <- !app_assoc. cbn.
  repeat split; try reflexivity. now destruct (queue s).
Qed.

Lemma pause_then_resume_witness :
  exists s,
    synth playing_world = Some s /\ speaking s = true /\ paused s = false /\
    exists w1 w2 s2,
      pause playing_world = Some (true, w1) /\ resume w1 = Some (true, w2) /\
      synth w2 = Some s2 /\
      queue s2 = queue s /\ speaking s2 = true /\ paused s2 = false /\
      calls s2 = calls s ++ [CallPause; CallResume] /\
      isPaused w2 = false /\ isReading w2 = isReading playing_world /\
      utterance w2 = utterance playing_world /\
      selectedVoice w2 = selectedVoice playing_world /\
      settings w2 = settings playing_world /\
      notifications w2 = notifications playing_world /\
      ui w2 = ui playing_world ++ [UiPaused; UiPlaying].
Proof.
  exists (synth_speak (new_utterance (js "Hello") no_options quiet_world)
            (idle_engine [])).
  split; [reflexivity|]. split; [reflexivity|]. split; [reflexivity|].
  exact (pause_then_resume playing_world _ eq_refl eq_refl eq_refl).
Defined.

(** Every way a call of [speak] can go. *)
Lemma speak_cases (w : World) (text : jsstring) (options : Options) :
  (no_text text = true /\
   speak text options w
   = Some (false, set_notifications (notifications w ++ [(msgNoText, "warning"%string)]) w)) \/
  (no_text text = false /\ synth w = None /\
   speak text options w
   = Some (false, set_notifications (notifications w ++ [(msgUnsupported, "error"%string)]) w)) \/
  (exists s w1 s1,
     no_text text = false /\ synth w = Some s /\
     ((speaking s || paused s = true /\ w1 = stopped s w /\ s1 = synth_cancel s) \/
      (speaking s || paused s = false /\ w1 = w /\ s1 = s)) /\
     ((speak_throws s = true /\
       speak text options w
       = Some (false,
               set_notifications (notifications w1 ++ [(msgUnavailable, "error"%string)])
                 (set_utterance (Some (new_utterance (cleanText text) options w))
                    (set_currentText (cleanText text) w1)))) \/
      (speak_throws s = false /\
       speak text options w
       = Some (true, submitted (new_utterance (cleanText text) options w) s1 w1)))).
Proof.
  destruct (no_text text) eqn:Hn.
  { left. split; [reflexivity | now apply speak_rejects_no_text]. }
  right. destruct (synth w) as [s|] eqn:Hs.
  2:{ left. split; [reflexivity|]. split; [reflexivity|].
      unfold speak. rewrite Hn. run. rewrite Hs. reflexivity. }
  right. destruct (speaking s || paused s) eqn:Hsp.
  - exists s, (stopped s w), (synth_cancel s).
    split; [reflexivity|]. split; [reflexivity|]. split; [left; auto|].
    destruct (speak_throws s) eqn:Ht.
    + left. split; [reflexivity|].
      unfold speak. rewrite Hn. unfold bind at 1, gets at 1. rewrite Hs.
      unfold bind at 1. rewrite (stop_active w s Hs Hsp). run. step Ht. reflexivity.
    + right. split; [reflexivity|]. now apply speak_over_session.
  - exists s, w, s.
    split; [reflexivity|]. split; [reflexivity|]. split; [right; auto|].
    destruct (speak_throws s) eqn:Ht.
    + left. split; [reflexivity|].
      unfold speak. rewrite Hn. unfold bind at 1, gets at 1. rewrite Hs.
      unfold bind at 1. rewrite (stop_inactive w s Hs Hsp). run. step Hs. step Ht.
      reflexivity.
    + right. split; [reflexivity|]. now apply speak_from_silence.
Qed.

(** X4.  What [speak] returns tells whether the engine was reached.
    When a call of [speak] returns, it returns [true] exactly when the
    text is not blank, the host has an engine and the engine's [speak]
    did not raise; the engine was then handed one utterance, whose text
    is the cleaned text, and nothing was shown.  When it returns [false]
    the engine was asked to speak nothing and exactly one notification
    was shown, which names the reason. *)
Theorem speak_returns (w w' : World) (text : jsstring) (options : Options)
    (b : bool) :
  speak text options w = Some (b, w') ->
  (b = true <->
   no_text text = false /\ exists s, synth w = Some s /\ speak_throws s = false) /\
  (b = true ->
   notifications w' = notifications w /\
   spoken w' = spoken w ++ [new_utterance (cleanText text) options w]) /\
  (b = false ->
   spoken w' = spoken w /\
   notifications w'
   = notifications w ++
       [if no_text text then (msgNoText, "warning"%string)
        else match synth w with
             | None => (msgUnsupported, "error"%string)
             | Some _ => (msgUnavailable, "error"%string)
             end]).
Proof.
  destruct (speak_cases w text options)
    as [[Hn E] | [(Hn & Hs & E) | (s & w1 & s1 & Hn & Hs & Hst & [[Ht E] | [Ht E]])]];
    rewrite E; intros [= <- <-]; rewrite Hn, Hs || rewrite Hn.
  - split; [split; [discriminate | intros [H _]; discriminate H]|].
    split; [discriminate|]. intros _. split; reflexivity.
  - split; [split; [discriminate | intros (_ & s & H & _); discriminate H]|].
    split; [discriminate|]. intros _. unfold spoken. cbn. rewrite Hs.
    split; reflexivity.
  - split; [split; [discriminate | intros (_ & s' & [= <-] & H); congruence]|].
    split; [discriminate|]. intros _.
    destruct Hst as [(_ & -> & _) | (_ & -> & _)]; unfold spoken; cbn; rewrite Hs;
      rewrite ?flat_map_app; cbn; rewrite ?app_nil_r; split; reflexivity.
  - split; [split; [eauto | reflexivity]|].
    split; [|discriminate]. intros _.
    destruct Hst as [(_ & -> & ->) | (_ & -> & ->)]; unfold spoken; cbn; rewrite ?Hs;
      rewrite ?flat_map_app; cbn; rewrite ?app_nil_r; split; reflexivity.
Qed.

Lemma speak_returns_witness :
  exists w',
    speak (js "Hello") no_options quiet_world = Some (true, w') /\
    notifications w' = [] /\
    spoken w' = [new_utterance (js "Hello") no_options quiet_world].
Proof.
  assert (E : speak (js "Hello") no_options quiet_world
              = Some (true, after (speak (js "Hello") no_options) quiet_world))
    by (vm_compute; reflexivity).
  destruct (speak_returns quiet_world _ (js "Hello") no_options true E)
    as (_ & H & _).
  eexists. split; [exact E|]. exact (H eq_refl).
Defined.



(** X7.  Both ways a session ends bring the reader to idle, tell the
    interface [stopped], leave the engine alone and show exactly one
    notification: success at the end, and on an error the message for
    [network], [not-allowed] or [language-not-supported], the general
    message for every other kind of error.  The four messages differ. *)
Theorem terminal_events_go_idle (w : World) (error : jsstring) :
  (exists w',
     handle Ended w = Some (tt, w') /\ playback w' = Idle /\
     isPaused w' = false /\ synth w' = synth w /\
     ui w' = ui w ++ [UiStopped] /\
     notifications w' = notifications w ++ [(msgFinished, "success"%string)]) /\
  (exists w' msg,
     handle (Failed error) w = Some (tt, w') /\ playback w' = Idle /\
     isPaused w' = false /\ synth w' = synth w /\
     ui w' = ui w ++ [UiStopped] /\
     notifications w' = notifications w ++ [((msg ++ msgRetry)%string, "error"%string)] /\
     (error = js "network" -> msg = msgNetwork) /\
     (error = js "not-allowed" -> msg = msgNotAllowed) /\
     (error = js "language-not-supported" -> msg = msgLanguage) /\
     (error <> js "network" -> error <> js "not-allowed" ->
      error <> js "language-not-supported" -> msg = msgGeneric)) /\
  NoDup [msgNetwork; msgNotAllowed; msgLanguage; msgGeneric].
Proof.
  split; [|split].
  - eexists. run. repeat split.
  - eexists _, _. run. repeat (split; [reflexivity|]).
    repeat split.
    + intros ->. reflexivity.
    + intros ->. reflexivity.
    + intros ->. reflexivity.
    + intros H1 H2 H3. now rewrite !str_eqb_neq.
  - apply (bool_decide_unpack _). vm_compute. exact I.
Qed.

(** X8.  On an engine whose flags agree with its queue, [stop] leaves
    the engine silent with nothing queued, and returns [true] exactly
    when the engine spoke or was paused, in which case the reader is idle
    and not paused afterwards. *)
Theorem stop_leaves_engine_silent (w : World) (s : SpeechSynthesis) :
  synth w = Some s ->
  engine_coherent s ->
  exists b w' s',
    stop w = Some (b, w') /\ synth w' = Some s' /\
    queue s' = [] /\ speaking s' = false /\
    b = speaking s || paused s /\
    (b = true -> playback w' = Idle /\ isPaused w' = false /\
                 ui w' = ui w ++ [UiStopped]) /\
    (b = false -> w' = w).
Proof.
  intros Hs Hc. destruct (speaking s || paused s) eqn:Hg.
  - rewrite (stop_active w s Hs Hg). eexists _, _, _.
    repeat (split; [reflexivity|]). split; [|discriminate]. intros _. repeat split.
  - rewrite (stop_inactive w s Hs Hg). exists false, w, s.
    split; [reflexivity|]. split; [exact Hs|]. split.
    + destruct (queue s) eqn:Hq; [reflexivity|].
      assert (speaking s || paused s = true) by (apply Hc; rewrite Hq; discriminate).
      congruence.
    + apply orb_false_iff in Hg as [H1 _].
      split; [exact H1|]. split; [reflexivity|].
      split; [discriminate | reflexivity].
Qed.

Lemma stop_leaves_engine_silent_witness :
  exists s,
    synth playing_world = Some s /\ engine_coherent s /\
    exists w' s',
      stop playing_world = Some (true, w') /\ synth w' = Some s' /\
      queue s' = [] /\ speaking s' = false /\ playback w' = Idle.
Proof.
  exists (synth_speak (new_utterance (js "Hello") no_options quiet_world)
            (idle_engine [])).
  assert (Hc : engine_coherent
    (synth_speak (new_utterance (js "Hello") no_options quiet_world)
       (idle_engine []))) by (intros _; reflexivity).
  split; [reflexivity|]. split; [exact Hc|].
  destruct (stop_leaves_engine_silent playing_world _ eq_refl Hc)
    as (b & w' & s' & H1 & H2 & H3 & H4 & H5 & H6 & _).
  assert (Hb : b = true) by (rewrite H5; reflexivity).
  rewrite Hb in H1. destruct (H6 Hb) as (H7 & _).
  exists w', s'. auto.
Defined.

(** A call of [speak] that goes through keeps the engine fit for the
    next one. *)
Lemma speak_keeps_engine (w : World) (s : SpeechSynthesis) (text : jsstring)
    (options : Options) :
  synth w = Some s ->
  engine_coherent s ->
  speak_throws s = false ->
  no_text text = false ->
  exists w' s',
    speak text options w = Some (true, w') /\
    synth w' = Some s' /\ engine_coherent s' /\ speak_throws s' = false /\
    queue s' = [new_utterance (cleanText text) options w] /\
    notifications w' = notifications w.
Proof.
  intros Hs Hc Ht Hn. destruct (speaking s || paused s) eqn:Hsp.
  - rewrite (speak_over_session w s Hs text options Hn Ht Hsp).
    eexists _, _. split; [reflexivity|]. split; [reflexivity|].
    split; [|split; [exact Ht | split; reflexivity]].
    apply (engine_methods_coherent _ (synth_cancel s)). intros H. now cbn in H.
  - rewrite (speak_from_silence w s Hs text options Hn Ht Hsp).
    assert (Hq : queue s = []).
    { destruct (queue s) eqn:Hq; [reflexivity|].
      assert (speaking s || paused s = true) by (apply Hc; rewrite Hq; discriminate).
      congruence. }
    eexists _, _. split; [reflexivity|]. split; [reflexivity|].
    split; [now apply engine_methods_coherent|]. split; [exact Ht|].
    split; [|reflexivity]. cbn. now rewrite Hq.
Qed.

(** X9.  However many texts are handed to [speak] one after the other,
    the engine ends with exactly one utterance queued: that of the last
    text. *)
Theorem speak_each_keeps_one_session (texts : list jsstring) (final : jsstring)
    (w : World) (s : SpeechSynthesis) :
  synth w = Some s ->
  engine_coherent s ->
  speak_throws s = false ->
  Forall (fun text => no_text text = false) texts ->
  last texts = Some final ->
  exists w' s' u,
    speak_each texts w = Some (tt, w') /\
    synth w' = Some s' /\ queue s' = [u] /\ u_text u = cleanText final.
Proof.
  intros Hs Hc Ht Hall. revert w s Hs Hc Ht.
  induction Hall as [|text rest Hn Hrest IH]; intros w s Hs Hc Ht Hl; [discriminate|].
  destruct (speak_keeps_engine w s text no_options Hs Hc Ht Hn)
    as (w1 & s1 & E & Hs1 & Hc1 & Ht1 & Hq & _).
  cbn [speak_each]. unfold bind at 1. rewrite E.
  destruct rest as [|text' rest'].
  - injection Hl as <-. cbn. eexists _, _, _.
    split; [reflexivity|]. split; [exact Hs1|]. split; [exact Hq | reflexivity].
  - apply (IH w1 s1 Hs1 Hc1 Ht1). exact Hl.
Qed.

Lemma speak_each_keeps_one_session_witness :
  synth quiet_world = Some (idle_engine []) /\
  engine_coherent (idle_engine []) /\
  Forall (fun text => no_text text = false) [js "one"; js "two"; js "three"] /\
  exists w' s' u,
    speak_each [js "one"; js "two"; js "three"] quiet_world = Some (tt, w') /\
    synth w' = Some s' /\ queue s' = [u] /\ u_text u = cleanText (js "three").
Proof.
  assert (Hf : Forall (fun text => no_text text = false) [js "one"; js "two"; js "three"])
    by (repeat constructor).
  split; [reflexivity|]. split; [apply idle_engine_coherent|]. split; [exact Hf|].
  exact (speak_each_keeps_one_session _ (js "three") quiet_world (idle_engine [])
           eq_refl (idle_engine_coherent []) eq_refl Hf eq_refl).
Defined.

(** ** Voices and saved settings, further *)

(** X10.  [initializeVoices], which the constructor, the timers and the
    engine's [voiceschanged] event all call, can be repeated at will:
    with the catalog and the store unchanged, a second call changes
    nothing. *)
Theorem initializeVoices_twice (w : World) (s : SpeechSynthesis) :
  synth w = Some s ->
  exists w',
    initializeVoices w = Some (tt, w') /\ initializeVoices w' = Some (tt, w').
Proof.
  intros Hs. rewrite (initializeVoices_result w s Hs).
  eexists. split; [reflexivity|].
  destruct (getVoices s) as [|first others] eqn:Hv; cbn zeta;
    match goal with
    | |- initializeVoices ?x = _ => rewrite (initializeVoices_result x s Hs)
    end; rewrite Hv; [reflexivity|].
  cbn -[lookup selectPreferred property_at holds].
  destruct (localStorage w !! "selectedVoiceIndex"%string) as [[|c key]|];
    try (destruct (holds (selectedVoice w)) eqn:E; cbn; rewrite ?E; reflexivity).
  destruct (holds (property_at (first :: others) (c :: key))) eqn:Hf.
  - cbn. rewrite ?Hf. reflexivity.
  - destruct (holds (selectedVoice w)) eqn:E; cbn; rewrite ?E; reflexivity.
Qed.

Lemma initializeVoices_twice_witness :
  synth stale_world = Some (idle_engine plain_catalog) /\
  exists w',
    initializeVoices stale_world = Some (tt, w') /\
    initializeVoices w' = Some (tt, w').
Proof.
  split; [reflexivity|].
  exact (initializeVoices_twice stale_world (idle_engine plain_catalog) eq_refl).
Defined.

(** The choice that is computed when the reader holds nothing is a voice
    of the catalog. *)
Lemma preferred_or_first_In (first : Voice) (others : list Voice) :
  In match selectPreferred (first :: others) with
     | Some v => v
     | None => first
     end (first :: others).
Proof.
  destruct (selectPreferred (first :: others)) as [vp|] eqn:Hp; [|now left].
  now apply select_from_matches in Hp.
Qed.

(** X11.  When the engine reports voices, [initializeVoices] leaves the
    reader holding something, whatever the store holds and whatever the
    reader held before: a voice of the catalog, or what it held before,
    or the property of the array that a saved word names.  It is a voice
    of the catalog as soon as the reader held nothing before and the
    saved key, if it is not an index, names no property of the array. *)
Theorem initializeVoices_selects (w : World) (s : SpeechSynthesis) :
  synth w = Some s ->
  getVoices s <> [] ->
  exists w' x,
    initializeVoices w = Some (tt, w') /\ voices w' = getVoices s /\
    selectedVoice w' = Some x /\ holds (Some x) = true /\
    ((exists v, x = AVoice v /\ In v (getVoices s)) \/
     selectedVoice w = Some x \/
     (exists key,
        localStorage w !! "selectedVoiceIndex"%string = Some key /\
        array_index key = None /\ property_at (getVoices s) key = Some x)) /\
    (holds (selectedVoice w) = false ->
     (forall key,
        localStorage w !! "selectedVoiceIndex"%string = Some key ->
        array_index key = None -> property_at (getVoices s) key = None) ->
     exists v, x = AVoice v /\ In v (getVoices s)).
Proof.
  intros Hs Hne. rewrite (initializeVoices_result w s Hs).
  destruct (getVoices s) as [|first others] eqn:Hv; [contradiction|].
  cbn zeta. cbn [selectedVoice set_selectedVoice voices set_voices].
  pose proof (preferred_or_first_In first others) as Hin.
  assert (Hcomputed :
    exists x,
      (if holds (selectedVoice w) then selectedVoice w
       else Some (AVoice match selectPreferred (first :: others) with
                         | Some v => v
                         | None => first
                         end)) = Some x /\
      holds (Some x) = true /\
      ((exists v, x = AVoice v /\ In v (first :: others)) \/ selectedVoice w = Some x) /\
      (holds (selectedVoice w) = false ->
       exists v, x = AVoice v /\ In v (first :: others))).
  { destruct (holds (selectedVoice w)) eqn:E.
    - destruct (selectedVoice w) as [x|]; [|discriminate E].
      exists x. split; [reflexivity|]. split; [exact E|]. split; [now right | discriminate].
    - eexists. split; [reflexivity|]. split; [reflexivity|]. split; [left|]; eauto. }
  destruct Hcomputed as (xc & Ec & Hhc & Hfrom & Hnew).
  destruct (localStorage w !! "selectedVoiceIndex"%string) as [[|c key]|] eqn:Hk.
  2:{ destruct (holds (property_at (first :: others) (c :: key))) eqn:Hf.
      - destruct (property_at (first :: others) (c :: key)) as [x|] eqn:Hp;
          [|discriminate Hf].
        eexists _, x. split; [reflexivity|]. split; [reflexivity|].
        split; [reflexivity|]. split; [exact Hf|].
        unfold property_at in Hp.
        destruct (array_index (c :: key)) as [n|] eqn:Hi.
        + destruct ((first :: others) !! n) as [v|] eqn:Hn; [|discriminate Hp].
          injection Hp as <-.
          assert (In v (first :: others))
            by (apply list_elem_of_In; eapply list_elem_of_lookup_2; exact Hn).
          split; [left|]; eauto.
        + split.
          * right. right. exists (c :: key). unfold property_at. rewrite Hi. auto.
          * intros _ Hnone. specialize (Hnone (c :: key) eq_refl Hi).
            unfold property_at in Hnone. rewrite Hi, Hp in Hnone. discriminate Hnone.
      - eexists _, xc. split; [reflexivity|]. split; [reflexivity|].
        split; [exact Ec|]. split; [exact Hhc|]. split; [|auto].
        destruct Hfrom as [H | H]; auto. }
  all: eexists _, xc; split; [reflexivity|]; split; [reflexivity|];
    split; [exact Ec|]; split; [exact Hhc|]; split; [|auto];
    destruct Hfrom as [H | H]; auto.
Qed.

Lemma initializeVoices_selects_witness :
  synth length_world = Some (idle_engine plain_catalog) /\
  getVoices (idle_engine plain_catalog) <> [] /\
  exists w' x,
    initializeVoices length_world = Some (tt, w') /\
    selectedVoice w' = Some x /\ holds (Some x) = true.
Proof.
  assert (Hne : getVoices (idle_engine plain_catalog) <> []) by discriminate.
  destruct (initializeVoices_selects length_world (idle_engine plain_catalog)
              eq_refl Hne) as (w' & x & H1 & _ & H2 & H3 & _).
  split; [reflexivity|]. split; [exact Hne|].
  exists w', x. split; [exact H1|]. split; [exact H2 | exact H3].
Defined.

(** X12.  Switching auto-read stores the state of the checkbox (off when
    the page has no checkbox), so that loading the preferences afterwards
    gives that state back, with rate, pitch and volume as they were; one
    notification is shown and the reader is otherwise untouched. *)
Theorem toggleAutoRead_is_loaded_back (w : World) (checkbox : option bool) :
  exists w' p p',
    toggleAutoRead checkbox w = Some (tt, w') /\
    load (localStorage w) = Some p /\ load (localStorage w') = Some p' /\
    pref_autoRead p' = match checkbox with Some c => c | None => false end /\
    pref_rate p' = pref_rate p /\ pref_pitch p' = pref_pitch p /\
    pref_volume p' = pref_volume p /\
    (exists n, notifications w' = notifications w ++ [n]) /\
    synth w' = synth w /\ settings w' = settings w /\
    selectedVoice w' = selectedVoice w /\ isReading w' = isReading w.
Proof.
  eexists _, _, _. split; [reflexivity|]. split; [reflexivity|]. split; [reflexivity|].
  cbn -[lookup insert]. unfold loadAutoReadSetting.
  rewrite lookup_insert_eq.
  rewrite !lookup_insert_ne by discriminate.
  split; [destruct checkbox as [[|]|]; reflexivity|].
  repeat (split; [reflexivity|]). split; [eauto | repeat split].
Qed.

(** ** The controls on the page *)

Section Controls.

Import Dom.

(** X13.  With the three buttons on the page, a call of [updateUI] shows
    the state whatever was shown before: the play button is hidden
    exactly while playing, the pause button is visible exactly while
    playing, and the stop button is hidden exactly when stopped; every
    other class of the buttons is left as it was. *)
Theorem updateUI_shows_state (state : UiState) (d : Controls)
    (play pause stop : Button) :
  playBtn d = Some play -> pauseBtn d = Some pause -> stopBtn d = Some stop ->
  exists play' pause' stop',
    playBtn (updateUI state d) = Some play' /\
    pauseBtn (updateUI state d) = Some pause' /\
    stopBtn (updateUI state d) = Some stop' /\
    ("hidden"%string ∈ classList play' <-> state = UiPlaying) /\
    ("hidden"%string ∈ classList pause' <-> state <> UiPlaying) /\
    ("hidden"%string ∈ classList stop' <-> state = UiStopped) /\
    (forall c, c <> "hidden"%string ->
       (c ∈ classList play' <-> c ∈ classList play) /\
       (c ∈ classList pause' <-> c ∈ classList pause) /\
       (c ∈ classList stop' <-> c ∈ classList stop)).
Proof.
  intros Hp Hpa Hs. unfold updateUI. rewrite Hp, Hpa, Hs.
  destruct state; cbn; eexists _, _, _;
    (split; [reflexivity|]); (split; [reflexivity|]); (split; [reflexivity|]); cbn;
    repeat split; try discriminate; try congruence; set_solver.
Qed.

Lemma updateUI_shows_state_witness :
  exists play' pause' stop',
    playBtn (updateUI UiPaused sample_controls) = Some play' /\
    pauseBtn (updateUI UiPaused sample_controls) = Some pause' /\
    stopBtn (updateUI UiPaused sample_controls) = Some stop' /\
    ("hidden"%string ∈ classList play' <-> UiPaused = UiPlaying) /\
    ("hidden"%string ∈ classList pause' <-> UiPaused <> UiPlaying) /\
    ("hidden"%string ∈ classList stop' <-> UiPaused = UiStopped).
Proof.
  destruct (updateUI_shows_state UiPaused sample_controls sample_button
              sample_button sample_button eq_refl eq_refl eq_refl)
    as (p & pa & st & H1 & H2 & H3 & H4 & H5 & H6 & _).
  exists p, pa, st. auto 10.
Defined.

(** Equations between class lists built with [add] and [remove]. *)
Ltac class_lists :=
  apply set_eq; intros ?x;
  repeat (rewrite elem_of_union || rewrite elem_of_difference
          || rewrite elem_of_singleton);
  destruct (decide (x = "hidden"%string)), (decide (x = "opacity-50"%string));
  tauto.

Lemma Button_eq (a b : Button) :
  classList a = classList b -> innerHTML a = innerHTML b -> a = b.
Proof. destruct a, b. cbn. now intros -> ->. Qed.

Lemma updateChapterButtons_twice (a b : UiState) (btns : list Button) :
  updateChapterButtons b (updateChapterButtons a btns) = updateChapterButtons b btns.
Proof.
  unfold updateChapterButtons. rewrite List.map_map. apply List.map_ext. intros btn.
  destruct a, b;
    (apply Button_eq;
     [unfold classList_add, classList_remove, set_innerHTML; cbn [classList];
      class_lists | reflexivity]).
Qed.

Lemma updateUI_twice_classes (a b : UiState) (d : Controls) :
  classes (updateUI b (updateUI a d)) = classes (updateUI b d).
Proof.
  unfold classes, updateUI.
  destruct (playBtn d) as [play|] eqn:Hp; [|cbn; rewrite ?Hp; reflexivity].
  destruct (pauseBtn d) as [pause|], (stopBtn d) as [stop|];
    destruct a, b; cbn -[updateChapterButtons]; rewrite updateChapterButtons_twice;
    repeat match goal with
           | |- (_, _) = (_, _) => apply f_equal2
           | |- Some _ = Some _ => apply f_equal
           end;
    try reflexivity; class_lists.
Qed.

(** X14.  After any number of calls of [updateUI], the class lists of
    the three buttons and the chapter buttons are those a single call
    with the last state gives: what the page shows depends on the last
    state notified only. *)
Theorem render_last_state_wins (log : list UiState) (state : UiState) (d : Controls) :
  classes (render (log ++ [state]) d) = classes (updateUI state d).
Proof.
  unfold render. rewrite fold_left_app. cbn.
  revert d. induction log as [|a log IH] using rev_ind; intros d; [reflexivity|].
  rewrite fold_left_app. cbn. rewrite updateUI_twice_classes. apply IH.
Qed.

(** X15.  With the play button on the page, a call of [updateUI] dims
    every chapter button and labels it as being listened to exactly when
    the state is playing; without the play button the call changes
    nothing at all, the chapter buttons included. *)
Theorem updateUI_chapter_buttons (state : UiState) (d : Controls) :
  match playBtn d with
  | None => updateUI state d = d
  | Some _ =>
      List.length (chapterButtons (updateUI state d)) = List.length (chapterButtons d) /\
      Forall (fun btn =>
                ("opacity-50"%string ∈ classList btn <-> state = UiPlaying) /\
                innerHTML btn = match state with
                                | UiPlaying => htmlListening
                                | _ => htmlListen
                                end)
             (chapterButtons (updateUI state d))
  end.
Proof.
  unfold updateUI. destruct (playBtn d) as [play|]; [|reflexivity].
  assert (H : forall btns,
    List.length (updateChapterButtons state btns) = List.length btns /\
    Forall (fun btn =>
              ("opacity-50"%string ∈ classList btn <-> state = UiPlaying) /\
              innerHTML btn = match state with
                              | UiPlaying => htmlListening
                              | _ => htmlListen
                              end)
           (updateChapterButtons state btns)).
  { intros btns. unfold updateChapterButtons. split; [apply List.length_map|].
    apply Forall_forall. intros btn Hin. apply list_elem_of_In, in_map_iff in Hin.
    destruct Hin as (b0 & <- & _).
    destruct state; cbn; (split; [|reflexivity]);
      split; try discriminate; try congruence; set_solver. }
  destruct state; apply H.
Qed.

End Controls.

(** ** The page around the reader *)

Section PageLevel.

(** The first code unit of a text survives [cleanText] when it is
    neither markup nor white space and is on the allowlist, whatever
    follows it. *)
Lemma cleanText_keeps_head (c : N) (r : jsstring) :
  c <> LT -> c <> 38 -> is_space c = false -> kept c = true ->
  exists r', cleanText (c :: r) = c :: r'.
Proof.
  intros Hlt Hamp Hsp Hk.
  assert (Hrep : forall pt rep x,
            replace_all (38 :: pt) rep (c :: x) = c :: replace_all (38 :: pt) rep x).
  { intros pt rep x. unfold replace_all. cbn [replace_from starts_with].
    apply not_eq_sym, N.eqb_neq in Hamp. now rewrite Hamp. }
  assert (Hend : forall l : jsstring, exists l', trim_start (l ++ [c]) = l' ++ [c]).
  { induction l as [|a l [l' IH]]; cbn.
    - rewrite Hsp. now exists [].
    - destruct (is_space a); [eauto | now exists (a :: l)]. }
  unfold cleanText, strip_tags. cbn [strip_tags_from].
  apply N.eqb_neq in Hlt. rewrite Hlt.
  change (js "&nbsp;") with (38 :: js "nbsp;").
  change (js "&amp;") with (38 :: js "amp;").
  change (js "&lt;") with (38 :: js "lt;").
  change (js "&gt;") with (38 :: js "gt;").
  change (js "&quot;") with (38 :: js "quot;").
  change (js "&#39;") with (38 :: js "#39;").
  rewrite !Hrep. unfold collapse_spaces, drop_disallowed. cbn [collapse_from].
  rewrite Hsp. cbn [List.filter]. rewrite Hk.
  unfold trim, trim_end. rewrite trim_start_keep by assumption.
  cbn [rev]. match goal with |- context [trim_start (?l ++ [c])] =>
    destruct (Hend l) as [l' ->] end.
  rewrite rev_app_distr. cbn. eauto.
Qed.


Lemma getCleanText_element (content : jsstring) :
  getCleanText (TextElement content) = cleanText content.
Proof. destruct content; reflexivity. Qed.

Lemma allText_head (index : nat) (contents : list jsstring) :
  allText index contents = [] \/ exists r, allText index contents = 2330 :: r.
Proof.
  revert index. induction contents as [|content rest IH]; intros index;
    cbn [allText]; [now left|].
  destruct (getCleanText (TextElement content)); [apply IH|].
  right. eexists. reflexivity.
Qed.


Lemma spoken_speak (w : World) (text : jsstring) (options : Options) :
  exists b w',
    speak text options w = Some (b, w') /\
    spoken w' = spoken w ++
      (if b then [new_utterance (cleanText text) options w] else []).
Proof.
  destruct (speak_cases w text options)
    as [[_ E] | [(_ & Hs & E) | (s & w1 & s1 & _ & Hs & Hst & [[_ E] | [_ E]])]];
    rewrite E; eexists _, _; (split; [reflexivity|]); unfold spoken; cbn;
    rewrite ?Hs, ?app_nil_r; try reflexivity;
    destruct Hst as [(_ & -> & ->) | (_ & -> & ->)]; cbn; rewrite ?Hs;
    rewrite ?flat_map_app; cbn; rewrite ?app_nil_r; reflexivity.
Qed.







(** X17.  [readSummary] on a reader that is paused, with the engine
    paused too, resumes the reading instead of starting it again: the
    engine receives [resume] and nothing else, its queue stays, and the
    page says that the voice goes on. *)
Theorem readSummary_resumes (p : Page) (s : SpeechSynthesis) (content : jsstring) :
  voiceReader p = true ->
  overallSummary p = Some content ->
  cleanText content <> [] ->
  isPaused (world p) = true ->
  synth (world p) = Some s ->
  paused s = true ->
  exists p',
    readSummary p = Some p' /\
    synth (world p') = Some (synth_resume s) /\
    queue (synth_resume s) = queue s /\
    calls (synth_resume s) = calls s ++ [CallResume] /\
    isPaused (world p') = false /\
    ui (world p') = ui (world p) ++ [UiPlaying] /\
    notifications (world p')
    = notifications (world p) ++ [(msgResumed, "success"%string)].
Proof.
  intros Hv Ho Hc Hp Hs Hsp. unfold readSummary. rewrite Hv, Ho. cbn [negb].
  rewrite getCleanText_element. destruct (cleanText content) as [|c t]; [contradiction|].
  rewrite Hp, Hs, Hsp. unfold call. rewrite (resume_effective (world p) s Hs Hsp).
  eexists. split; [reflexivity|]. cbn. repeat split.
Qed.

Lemma readSummary_resumes_witness :
  exists s content,
    voiceReader paused_page = true /\
    overallSummary paused_page = Some content /\
    cleanText content <> [] /\
    isPaused (world paused_page) = true /\
    synth (world paused_page) = Some s /\
    paused s = true /\
    exists p',
      readSummary paused_page = Some p' /\
      synth (world p') = Some (synth_resume s) /\
      isPaused (world p') = false /\
      notifications (world p')
      = notifications (world paused_page) ++ [(msgResumed, "success"%string)].
Proof.
  assert (Hc : cleanText (js "<p>A tale of two cities.</p>") <> [])
    by (vm_compute; discriminate).
  exists (synth_pause
            (synth_speak (new_utterance (js "Hello") no_options quiet_world)
               (idle_engine []))),
         (js "<p>A tale of two cities.</p>").
  destruct (readSummary_resumes paused_page _ _ eq_refl eq_refl Hc eq_refl
              eq_refl eq_refl) as (p' & H1 & H2 & _ & _ & H3 & _ & H4).
  split; [reflexivity|]. split; [reflexivity|]. split; [exact Hc|].
  split; [reflexivity|]. split; [reflexivity|]. split; [reflexivity|].
  exists p'. auto.
Defined.

Lemma trim_keeps_head (c : N) (r : jsstring) :
  is_space c = false -> exists r', trim (c :: r) = c :: r'.
Proof.
  intros Hsp.
  assert (Hend : forall l : jsstring, exists l', trim_start (l ++ [c]) = l' ++ [c]).
  { induction l as [|a l [l' IH]]; cbn.
    - rewrite Hsp. now exists [].
    - destruct (is_space a); [eauto | now exists (a :: l)]. }
  unfold trim, trim_end. rewrite trim_start_keep by assumption. cbn [rev].
  destruct (Hend (rev r)) as [l' ->]. rewrite rev_app_distr. cbn. eauto.
Qed.

Lemma allText_nil (index : nat) (contents : list jsstring) :
  allText index contents = [] <->
  Forall (fun content => cleanText content = []) contents.
Proof.
  revert index. induction contents as [|content rest IH]; intros index;
    cbn [allText]; [split; [constructor | reflexivity]|].
  rewrite getCleanText_element.
  destruct (cleanText content) as [|c t] eqn:Hc.
  - cbn [app]. rewrite IH. split; [now constructor | now inversion 1].
  - split; [intros H; cbn [app] in H; discriminate H | inversion 1; congruence].
Qed.

(** X18.  On a page with a reader and a working engine,
    [readAllChapters] reads all the chapters as one session: when some
    chapter has text, the engine ends with exactly one utterance queued,
    whose text is the cleaned concatenation and is not empty; when none
    has, the page only shows a warning and the reader is not touched. *)
Theorem readAllChapters_one_session (p : Page) (s : SpeechSynthesis) :
  voiceReader p = true ->
  synth (world p) = Some s ->
  engine_coherent s ->
  speak_throws s = false ->
  (Forall (fun content => cleanText content = []) (chapterContent p) ->
   exists message, readAllChapters p = Some (notify message "warning" p)) /\
  (Exists (fun content => cleanText content <> []) (chapterContent p) ->
   exists p' s' u,
     readAllChapters p = Some p' /\
     synth (world p') = Some s' /\ queue s' = [u] /\
     u_text u = cleanText (allText 0 (chapterContent p)) /\ u_text u <> [] /\
     notifications (world p')
     = notifications (world p) ++ [(msgReadingAll, "success"%string)]).
Proof.
  intros Hv Hs Hc Ht. unfold readAllChapters, ensure_reader. rewrite Hv. split.
  - intros Hall. destruct (chapterContent p) as [|content rest] eqn:Hch; [eauto|].
    apply (allText_nil 0) in Hall. rewrite Hall. eauto.
  - intros Hex. destruct (chapterContent p) as [|content rest] eqn:Hch;
      [now apply Exists_nil in Hex|].
    destruct (allText_head 0 (content :: rest)) as [E | [r Hr]].
    { apply allText_nil in E. apply Exists_exists in Hex as (x & Hin & Hx).
      rewrite Forall_forall in E. now specialize (E x Hin). }
    rewrite Hr.
    assert (Hn : no_text (2330 :: r) = false).
    { unfold no_text. destruct (trim_keeps_head 2330 r eq_refl) as [r' ->]. reflexivity. }
    destruct (speak_keeps_engine (world p) s (2330 :: r) no_options Hs Hc Ht Hn)
      as (w' & s' & E & Hs' & _ & _ & Hq & Hnot).
    unfold call. rewrite E. eexists _, _, _. split; [reflexivity|].
    cbn [world set_world notify]. cbn [synth set_notifications notifications].
    split; [exact Hs'|]. split; [exact Hq|]. split; [reflexivity|]. split.
    + cbn [u_text new_utterance].
      destruct (cleanText_keeps_head 2330 r) as [r' ->];
        [discriminate | discriminate | reflexivity | reflexivity | discriminate].
    + now rewrite Hnot.
Qed.

Lemma readAllChapters_one_session_witness :
  exists s,
    voiceReader reading_page = true /\
    synth (world reading_page) = Some s /\
    engine_coherent s /\ speak_throws s = false /\
    Exists (fun content => cleanText content <> []) (chapterContent reading_page) /\
    exists p' s' u,
      readAllChapters reading_page = Some p' /\
      synth (world p') = Some s' /\ queue s' = [u] /\ u_text u <> [].
Proof.
  exists (synth_speak (new_utterance (js "Hello") no_options quiet_world)
            (idle_engine [])).
  assert (Hc : engine_coherent
    (synth_speak (new_utterance (js "Hello") no_options quiet_world)
       (idle_engine []))) by (intros _; reflexivity).
  assert (Hex : Exists (fun content => cleanText content <> [])
                  (chapterContent reading_page))
    by (apply Exists_cons_hd; vm_compute; discriminate).
  destruct (readAllChapters_one_session reading_page _ eq_refl eq_refl Hc eq_refl)
    as [_ H].
  destruct (H Hex) as (p' & s' & u & H1 & H2 & H3 & _ & H4 & _).
  split; [reflexivity|]. split; [reflexivity|]. split; [exact Hc|].
  split; [reflexivity|]. split; [exact Hex|]. exists p', s', u. auto.
Defined.

(** X19.  The space bar, pressed on a page that shows the summary while
    the reader reads, pauses the reading, and pressed again resumes it:
    the engine receives [pause] and then [resume], its queue stays, and
    the only notification is the one of the pause. *)
Theorem space_bar_pauses_then_resumes (event : KeyEvent) (p : Page)
    (s : SpeechSynthesis) :
  key event = " "%string ->
  String.eqb (targetTag event) "INPUT" || String.eqb (targetTag event) "TEXTAREA"
  || String.eqb (targetTag event) "SELECT" = false ->
  summaryShown p = true ->
  voiceReader p = true ->
  isReading (world p) = true ->
  isPaused (world p) = false ->
  synth (world p) = Some s ->
  speaking s = true ->
  paused s = false ->
  exists p1 p2 s2,
    onKeydown event p = Some p1 /\ isPaused (world p1) = true /\
    onKeydown event p1 = Some p2 /\ isPaused (world p2) = false /\
    synth (world p2) = Some s2 /\ paused s2 = false /\ queue s2 = queue s /\
    calls s2 = calls s ++ [CallPause; CallResume] /\
    notifications (world p2)
    = notifications (world p) ++ [(msgPaused, "info"%string)].
Proof.
  intros Hk Htag Hshown Hv Hr Hp Hs Hsp Hpa.
  assert (Hg : speaking s && negb (paused s) = true) by now rewrite Hsp, Hpa.
  assert (E1 : onKeydown event p
               = Some (notify msgPaused "info"
                         (set_world
                            (set_ui (ui (world p) ++ [UiPaused])
                               (set_isPaused true
                                  (set_synth (Some (synth_pause s)) (world p)))) p))).
  { unfold onKeydown. rewrite Htag, Hk. cbn [String.eqb Ascii.eqb Bool.eqb andb].
    rewrite !andb_false_r. rewrite Hshown, Hv, Hr. cbn [andb].
    unfold engine_paused. rewrite Hs. cbn [option_map]. rewrite Hpa.
    unfold pauseReading. rewrite Hv, Hr, Hp. cbn [andb negb].
    unfold call. now rewrite (pause_effective (world p) s Hs Hg). }
  rewrite E1. eexists _, _, (synth_resume (synth_pause s)).
  split; [reflexivity|]. split; [reflexivity|]. split.
  - unfold onKeydown. rewrite Htag, Hk. cbn [String.eqb Ascii.eqb Bool.eqb andb].
    rewrite !andb_false_r. cbn [summaryShown notify set_world voiceReader world].
    rewrite Hshown, Hv. cbn [isReading set_notifications set_ui set_isPaused set_synth].
    rewrite Hr. cbn [andb]. unfold engine_paused.
    cbn [world synth set_notifications set_ui set_isPaused set_synth option_map
           paused synth_pause].
    unfold call. erewrite resume_effective by reflexivity. reflexivity.
  - cbn. rewrite <- app_assoc. repeat split.
Qed.

Lemma space_bar_pauses_then_resumes_witness :
  exists s,
    key space_key = " "%string /\
    summaryShown reading_page = true /\ voiceReader reading_page = true /\
    isReading (world reading_page) = true /\
    isPaused (world reading_page) = false /\
    synth (world reading_page) = Some s /\ speaking s = true /\ paused s = false /\
    exists p1 p2 s2,
      onKeydown space_key reading_page = Some p1 /\
      onKeydown space_key p1 = Some p2 /\
      synth (world p2) = Some s2 /\ paused s2 = false /\ queue s2 = queue s /\
      calls s2 = calls s ++ [CallPause; CallResume].
Proof.
  exists (synth_speak (new_utterance (js "Hello") no_options quiet_world)
            (idle_engine [])).
  destruct (space_bar_pauses_then_resumes space_key reading_page _ eq_refl eq_refl
              eq_refl eq_refl eq_refl eq_refl eq_refl eq_refl eq_refl)
    as (p1 & p2 & s2 & H1 & _ & H2 & _ & H3 & H4 & H5 & H6 & _).
  repeat (split; [reflexivity|]). exists p1, p2, s2. auto 10.
Defined.

(** X20.  The global [loadVoiceSettings], which a timer runs once the
    page is loaded, finds nothing left to do after [initializeVoices] on
    a host that reports voices: what the saved key names in the catalog
    is selected already. *)
Theorem loadVoiceSettings_after_initializeVoices (p : Page) (s : SpeechSynthesis) :
  synth (world p) = Some s ->
  getVoices s <> [] ->
  exists p1,
    call initializeVoices p = Some (tt, p1) /\ loadVoiceSettings p1 = Some p1.
Proof.
  intros Hs Hne. unfold call. rewrite (initializeVoices_result (world p) s Hs).
  eexists. split; [reflexivity|]. unfold loadVoiceSettings.
  destruct (getVoices s) as [|first others]; [contradiction|].
  cbn -[lookup selectPreferred property_at holds].
  destruct (localStorage (world p) !! "selectedVoiceIndex"%string) as [[|c key]|];
    try reflexivity.
  destruct (voiceReader p); [|reflexivity].
  destruct (holds (property_at (first :: others) (c :: key))) eqn:Hf; reflexivity.
Qed.

Lemma loadVoiceSettings_after_initializeVoices_witness :
  synth (world saved_page) = Some (idle_engine plain_catalog) /\
  getVoices (idle_engine plain_catalog) <> [] /\
  localStorage (world saved_page) !! "selectedVoiceIndex"%string = Some (js "0") /\
  selectPreferred plain_catalog = Some lekha /\
  exists p1,
    call initializeVoices saved_page = Some (tt, p1) /\
    selectedVoice (world p1) = Some (AVoice samantha) /\
    loadVoiceSettings p1 = Some p1.
Proof.
  assert (Hne : getVoices (idle_engine plain_catalog) <> []) by discriminate.
  destruct (loadVoiceSettings_after_initializeVoices saved_page
              (idle_engine plain_catalog) eq_refl Hne) as (p1 & H1 & H2).
  split; [reflexivity|]. split; [exact Hne|].
  split; [vm_compute; reflexivity|]. split; [vm_compute; reflexivity|].
  exists p1. split; [exact H1|]. split; [|exact H2].
  assert (E : call initializeVoices saved_page
              = Some (tt, set_world (after initializeVoices (world saved_page)) saved_page))
    by (vm_compute; reflexivity).
  rewrite E in H1. injection H1 as <-. vm_compute. reflexivity.
Defined.

End PageLevel.

(** ** The settings dialog and the chat's own speech *)

Section Dialog.

Variable toString : jsnum -> jsstring.

(** [speak] leaves the catalog, the selection, the settings and the
    store alone. *)
Lemma speak_keeps_reader (w w' : World) (text : jsstring) (options : Options)
    (b : bool) :
  speak text options w = Some (b, w') ->
  voices w' = voices w /\ selectedVoice w' = selectedVoice w /\
  settings w' = settings w /\ localStorage w' = localStorage w.
Proof.
  destruct (speak_cases w text options)
    as [[_ E] | [(_ & _ & E) | (s & w1 & s1 & _ & _ & Hst & [[_ E] | [_ E]])]];
    rewrite E; intros [= <- <-]; cbn; auto;
    destruct Hst as [(_ & -> & _) | (_ & -> & _)]; cbn; auto.
Qed.

(** What [applyVoiceSettings] leaves in the reader and the store when a
    voice is chosen in the dialog. *)
Lemma applyVoiceSettings_voice (p : Page) (value : jsstring)
    (rateSlider volumeSlider : option jsstring) (modal : bool) :
  voiceReader p = true ->
  let p' := fst (applyVoiceSettings toString (Some value) rateSlider volumeSlider
                   modal p) in
  voiceReader p' = true /\
  selectedVoice (world p') = property_at (voices (world p)) value /\
  voices (world p') = voices (world p) /\
  localStorage (world p') !! "selectedVoiceIndex"%string = Some value /\
  snd (applyVoiceSettings toString (Some value) rateSlider volumeSlider modal p)
  = modal.
Proof.
  intros Hv. destruct p as [made w summary chapters shown pending].
  cbn in Hv. subst made. unfold applyVoiceSettings.
  destruct rateSlider, volumeSlider; cbn -[lookup insert property_at];
    repeat (rewrite lookup_insert_ne by discriminate);
    rewrite lookup_insert_eq; auto.
Qed.

(** X21.  A voice chosen in the settings dialog and applied is the voice
    selected again by a later reader that finds the same catalog and the
    store as [applyVoiceSettings] left it, whatever the sliders said. *)
Theorem applied_voice_is_selected_again (p : Page) (value : jsstring) (v : Voice)
    (rateSlider volumeSlider : option jsstring) (modal : bool)
    (w2 : World) (s2 : SpeechSynthesis) :
  voiceReader p = true ->
  voice_at (voices (world p)) value = Some v ->
  synth w2 = Some s2 ->
  getVoices s2 = voices (world p) ->
  localStorage w2
  = localStorage (world (fst (applyVoiceSettings toString (Some value) rateSlider
                                volumeSlider modal p))) ->
  selectedVoice (world (fst (applyVoiceSettings toString (Some value) rateSlider
                               volumeSlider modal p))) = Some (AVoice v) /\
  exists w3, initializeVoices w2 = Some (tt, w3) /\ selectedVoice w3 = Some (AVoice v).
Proof.
  intros Hv Hat Hs2 Hg Hst.
  destruct (applyVoiceSettings_voice p value rateSlider volumeSlider modal Hv)
    as (_ & Hsel & _ & Hidx & _).
  pose proof (property_at_voice _ _ _ Hat) as Hp.
  split; [now rewrite Hsel|].
  rewrite (initializeVoices_result w2 s2 Hs2), Hg. eexists. split; [reflexivity|].
  destruct (voices (world p)) as [|first others] eqn:Hvs.
  { unfold voice_at in Hat. destruct (array_index value); discriminate. }
  cbn -[lookup property_at selectPreferred holds]. rewrite Hst, Hidx.
  assert (Hne : exists c key, value = c :: key).
  { unfold voice_at in Hat. destruct (array_index value) eqn:Hi; [|discriminate].
    now apply array_index_nonempty in Hi. }
  destruct Hne as (c & key & ->). now rewrite Hp.
Qed.

End Dialog.

Lemma applied_voice_is_selected_again_witness :
  voiceReader voiced_page = true /\
  voice_at (voices (world voiced_page)) (js "1") = Some lekha /\
  exists w2,
    synth w2 = Some (idle_engine plain_catalog) /\
    exists w3, initializeVoices w2 = Some (tt, w3) /\ selectedVoice w3 = Some (AVoice lekha).
Proof.
  split; [reflexivity|]. split; [reflexivity|].
  exists (fresh_reader (Some (idle_engine plain_catalog))
            (localStorage
               (world (fst (applyVoiceSettings stand_in_printer (Some (js "1"))
                              None None true voiced_page))))).
  split; [reflexivity|].
  exact (proj2 (applied_voice_is_selected_again stand_in_printer voiced_page
                  (js "1") lekha None None true
                  (fresh_reader (Some (idle_engine plain_catalog))
                     (localStorage
                        (world (fst (applyVoiceSettings stand_in_printer
                                       (Some (js "1")) None None true
                                       voiced_page)))))
                  (idle_engine plain_catalog) eq_refl eq_refl eq_refl eq_refl
                  eq_refl)).
Defined.

Section DialogTimer.

Variable toString : jsnum -> jsstring.

(** X22.  The timer [testVoice] sets puts back the voice that was
    selected when the test began, and it does so even when
    [applyVoiceSettings] has selected and stored another voice in the
    meantime: the reader then speaks with the earlier voice while the
    store names the applied one. *)
Theorem test_timer_reverts_applied_voice (p : Page)
    (testValue applyValue : jsstring) (vt va : Voice)
    (rate1 volume1 rate2 volume2 : option jsstring) (modal : bool) :
  voiceReader p = true ->
  voice_at (voices (world p)) testValue = Some vt ->
  voice_at (voices (world p)) applyValue = Some va ->
  exists p1 p3,
    testVoice (Some testValue) rate1 volume1 p = Some p1 /\
    timers p1 = timers p ++ [(5000%nat, TaskRestoreVoice (selectedVoice (world p)))] /\
    selectedVoice (world p1) = Some (AVoice vt) /\
    selectedVoice
      (world (fst (applyVoiceSettings toString (Some applyValue) rate2 volume2
                     modal p1))) = Some (AVoice va) /\
    run_task (TaskRestoreVoice (selectedVoice (world p)))
      (fst (applyVoiceSettings toString (Some applyValue) rate2 volume2 modal p1))
    = Some p3 /\
    selectedVoice (world p3) = selectedVoice (world p) /\
    localStorage (world p3) !! "selectedVoiceIndex"%string = Some applyValue.
Proof.
  intros Hv Ht Ha. unfold testVoice. rewrite Hv. cbn [negb].
  rewrite (property_at_voice _ _ _ Ht). cbn [holds].
  match goal with |- context [call (speak ?t ?o) ?q] =>
    destruct (spoken_speak (world q) t o) as (b & w1 & E & _);
    unfold call; rewrite E; pose proof (speak_keeps_reader _ _ _ _ _ E) as Hk
  end.
  cbn [world set_world voices selectedVoice set_selectedVoice settings localStorage]
    in Hk.
  destruct Hk as (Hvs & Hsel & _ & _).
  eexists _, _. split; [reflexivity|]. split; [reflexivity|].
  split; [exact Hsel|].
  match goal with |- context [applyVoiceSettings toString _ _ _ _ ?q] =>
    destruct (applyVoiceSettings_voice toString q applyValue rate2 volume2 modal Hv)
      as (_ & Hs2 & _ & Hidx & _)
  end.
  cbn [world set_world setTimeout] in Hs2, Hidx.
  split; [cbn [world set_world setTimeout]; rewrite Hs2, Hvs;
          exact (property_at_voice _ _ _ Ha)|].
  split; [reflexivity|]. split; [reflexivity|]. exact Hidx.
Qed.

End DialogTimer.

Lemma test_timer_reverts_applied_voice_witness :
  voiceReader voiced_page = true /\
  voice_at (voices (world voiced_page)) (js "1") = Some lekha /\
  voice_at (voices (world voiced_page)) (js "0") = Some samantha /\
  selectedVoice (world voiced_page) = Some (AVoice lekha) /\
  exists p1 p3,
    testVoice (Some (js "1")) None None voiced_page = Some p1 /\
    run_task (TaskRestoreVoice (selectedVoice (world voiced_page)))
      (fst (applyVoiceSettings stand_in_printer (Some (js "0")) None None true p1))
    = Some p3 /\
    selectedVoice (world p3) = Some (AVoice lekha) /\
    localStorage (world p3) !! "selectedVoiceIndex"%string = Some (js "0").
Proof.
  destruct (test_timer_reverts_applied_voice stand_in_printer voiced_page (js "1") (js "0") lekha
              samantha None None None None true eq_refl eq_refl eq_refl)
    as (p1 & p3 & H1 & _ & _ & _ & H2 & H3 & H4).
  split; [reflexivity|]. split; [reflexivity|]. split; [reflexivity|].
  split; [reflexivity|]. exists p1, p3.
  split; [exact H1|]. split; [exact H2|]. split; [exact H3 | exact H4].
Defined.

Lemma speakMessage_queues (w : World) (s : SpeechSynthesis) (text : jsstring) :
  synth w = Some s ->
  speak_throws s = false ->
  speakMessage text w
  = Some (tt, set_synth
                (Some (synth_speak
                         {| u_text := text; u_voice := None; u_rate := JFin 1;
                            u_pitch := JFin 1; u_volume := JFin 1;
                            u_lang := Some (js "en-US") |} s)) w).
Proof.
  intros Hs Ht. unfold speakMessage, engine, the_synth, bind, gets, modify.
  cbn -[js]. rewrite Hs, Ht. cbn -[js]. rewrite ?Hs. reflexivity.
Qed.

(** X23.  The chat's [speakMessage] hands its text to the engine as it
    is and stops nothing, so a message spoken while the reader reads
    waits in the queue behind the reading; the reader's [speak], called
    after a message, cancels the message and leaves its own utterance
    alone in the queue. *)
Theorem chat_speech_and_reader (w : World) (s : SpeechSynthesis)
    (text message : jsstring) :
  synth w = Some s ->
  engine_coherent s ->
  speak_throws s = false ->
  no_text text = false ->
  (exists w1 w2 s2 u,
     speak text no_options w = Some (true, w1) /\
     speakMessage message w1 = Some (tt, w2) /\ synth w2 = Some s2 /\
     queue s2 = [new_utterance (cleanText text) no_options w; u] /\
     u_text u = message) /\
  (exists w1 w2 s2,
     speakMessage message w = Some (tt, w1) /\
     speak text no_options w1 = Some (true, w2) /\ synth w2 = Some s2 /\
     queue s2 = [new_utterance (cleanText text) no_options w]).
Proof.
  intros Hs Hc Ht Hn. split.
  - destruct (speak_keeps_engine w s text no_options Hs Hc Ht Hn)
      as (w1 & s1 & E & Hs1 & _ & Ht1 & Hq & _).
    eexists w1, _, _, _. split; [exact E|].
    rewrite (speakMessage_queues w1 s1 message Hs1 Ht1).
    split; [reflexivity|]. split; [reflexivity|].
    cbn [queue synth_speak]. rewrite Hq. split; reflexivity.
  - pose proof (speakMessage_queues w s message Hs Ht) as Em.
    match type of Em with
    | _ = Some (_, ?x) =>
        destruct (speak_keeps_engine x _ text no_options eq_refl
                    (proj1 (engine_methods_coherent _ s Hc)) Ht Hn)
          as (w2 & s2 & E & Hs2 & _ & _ & Hq & _)
    end.
    eexists _, w2, s2. split; [exact Em|]. split; [exact E|].
    split; [exact Hs2 | exact Hq].
Qed.

Lemma chat_speech_and_reader_witness :
  synth quiet_world = Some (idle_engine []) /\
  engine_coherent (idle_engine []) /\
  no_text (js "Chapter one") = false /\
  exists w1 w2 s2 u,
    speak (js "Chapter one") no_options quiet_world = Some (true, w1) /\
    speakMessage (js "<b>Hi</b>") w1 = Some (tt, w2) /\ synth w2 = Some s2 /\
    queue s2 = [new_utterance (cleanText (js "Chapter one")) no_options quiet_world; u] /\
    u_text u = js "<b>Hi</b>".
Proof.
  split; [reflexivity|]. split; [apply idle_engine_coherent|]. split; [reflexivity|].
  exact (proj1 (chat_speech_and_reader quiet_world (idle_engine [])
                  (js "Chapter one") (js "<b>Hi</b>") eq_refl
                  (idle_engine_coherent []) eq_refl eq_refl)).
Defined.

(** ** The script of a cleaned text *)

Section Script.

Lemma devanagari_not_space (c : N) : is_devanagari c = true -> is_space c = false.
Proof.
  unfold is_devanagari, is_space. intros H. apply andb_true_iff in H as [H1 H2].
  apply N.leb_le in H1, H2.
  repeat (apply orb_false_iff; split);
    try apply andb_false_iff; try (apply N.eqb_neq; lia);
    first [left; apply N.leb_gt; lia | right; apply N.leb_gt; lia].
Qed.

Lemma devanagari_kept (c : N) : is_devanagari c = true -> kept c = true.
Proof. unfold kept. intros ->. now rewrite !orb_true_r. Qed.

Lemma starts_with_cons (pat : jsstring) (c : N) (s : jsstring) :
  pat <> [] -> starts_with pat (c :: s) = true ->
  exists pat', pat = c :: pat' /\ starts_with pat' s = true.
Proof.
  destruct pat as [|a pat']; [contradiction|]. intros _. cbn.
  intros H. apply andb_true_iff in H as [Ha H]. apply N.eqb_eq in Ha as ->. eauto.
Qed.

(** A literal replacement whose pattern and substitute hold no
    Devanagari neither brings any in nor takes any out. *)
Lemma replace_from_script (pat rep : jsstring) :
  pat <> [] ->
  existsb is_devanagari pat = false -> existsb is_devanagari rep = false ->
  forall s q,
    starts_with q s = true -> existsb is_devanagari q = false ->
    existsb is_devanagari (replace_from pat rep (List.length q) s)
    = existsb is_devanagari s.
Proof.
  intros Hne Hpat Hrep.
  induction s as [|c s IH]; intros q Hq Hpl; [now destruct q|].
  destruct q as [|a q]; cbn [List.length replace_from].
  - destruct (starts_with pat (c :: s)) eqn:Hm.
    + destruct (starts_with_cons pat c s Hne Hm) as (pat' & -> & Hm').
      cbn [List.length Nat.pred]. rewrite existsb_app, Hrep. cbn [orb existsb].
      cbn [existsb] in Hpat. apply orb_false_iff in Hpat as [-> Hpat].
      cbn [orb]. now apply IH.
    + cbn [existsb]. f_equal. now apply (IH []).
  - cbn [starts_with] in Hq. apply andb_true_iff in Hq as [Ha Hq].
    apply N.eqb_eq in Ha as ->. cbn [existsb] in Hpl |- *.
    apply orb_false_iff in Hpl as [-> Hpl]. cbn [orb]. now apply IH.
Qed.

Lemma replace_all_script (pat rep s : jsstring) :
  pat <> [] ->
  existsb is_devanagari pat = false -> existsb is_devanagari rep = false ->
  existsb is_devanagari (replace_all pat rep s) = existsb is_devanagari s.
Proof.
  intros Hne Hpat Hrep. apply (replace_from_script pat rep Hne Hpat Hrep s []);
    [now destruct s | reflexivity].
Qed.

Lemma collapse_from_script (b : bool) (s : jsstring) :
  existsb is_devanagari (collapse_from b s) = existsb is_devanagari s.
Proof.
  revert b. induction s as [|c s IH]; intros b; cbn; [reflexivity|].
  destruct (is_devanagari c) eqn:Hd.
  - rewrite (devanagari_not_space c Hd). cbn. now rewrite Hd.
  - destruct (is_space c); [destruct b|]; cbn; rewrite ?Hd; apply IH.
Qed.

Lemma filter_kept_script (s : jsstring) :
  existsb is_devanagari (List.filter kept s) = existsb is_devanagari s.
Proof.
  induction s as [|c s IH]; cbn; [reflexivity|].
  destruct (is_devanagari c) eqn:Hd.
  - rewrite (devanagari_kept c Hd). cbn. now rewrite Hd.
  - destruct (kept c); cbn; rewrite ?Hd; apply IH.
Qed.

Lemma trim_start_script (s : jsstring) :
  existsb is_devanagari (trim_start s) = existsb is_devanagari s.
Proof.
  induction s as [|c s IH]; cbn; [reflexivity|].
  destruct (is_space c) eqn:Hs; [|reflexivity].
  destruct (is_devanagari c) eqn:Hd; [|exact IH].
  rewrite (devanagari_not_space c Hd) in Hs. discriminate Hs.
Qed.

Lemma existsb_rev_script (s : jsstring) :
  existsb is_devanagari (rev s) = existsb is_devanagari s.
Proof.
  induction s as [|c s IH]; cbn; [reflexivity|].
  rewrite existsb_app, IH. cbn. rewrite orb_false_r. apply orb_comm.
Qed.

(** X24.  For a text without [<], cleaning does not change whether the
    text holds Devanagari, so the language [speak] picks when no voice is
    selected is the one the raw text calls for. *)
Theorem cleanText_keeps_script (text : jsstring) :
  Forall (fun c => c <> LT) text ->
  isHindiText (cleanText text) = isHindiText text.
Proof.
  intros H. unfold isHindiText, cleanText, trim, trim_end.
  rewrite existsb_rev_script, trim_start_script, existsb_rev_script,
    trim_start_script.
  unfold drop_disallowed, collapse_spaces.
  rewrite filter_kept_script, collapse_from_script.
  rewrite !replace_all_script by (first [discriminate | reflexivity]).
  now rewrite strip_tags_without_lt.
Qed.

End Script.

Lemma cleanText_keeps_script_witness :
  Forall (fun c => c <> LT) (namaste ++ js " &amp; namaste") /\
  isHindiText (cleanText (namaste ++ js " &amp; namaste")) = true.
Proof.
  assert (H : Forall (fun c => c <> LT) (namaste ++ js " &amp; namaste"))
    by (repeat constructor; discriminate).
  split; [exact H|].
  rewrite (cleanText_keeps_script _ H). reflexivity.
Defined.
